(** * Verification of the Twitter v2 filtered-stream session

    A shallow embedding of package [stream] (the session life cycle:
    [Connect], [newStream], [Stop], [retry], [receive], [getMessage]) and
    of the goroutine / channel primitives it is written with, followed by
    the properties of the specification that were checked against it.

    Go code runs in two goroutines here: the caller of [Connect] and
    [Stop], and the background goroutine started by [newStream].  Each
    goroutine is a program over the primitive operations below; the
    operations act on one shared world, and a goroutine takes one atomic
    step at a time. *)

From Stdlib Require Import ZArith Ascii String List Lia.
From Stdlib.Strings Require Import Byte.
From stdpp Require Import base list relations.

Local Open Scope string_scope.
Local Open Scope list_scope.
Local Open Scope Z_scope.

(** ** Data model *)

(** A Go [error] value, identified with its message. *)
Definition error := string.

(** [time.Duration] is a count of nanoseconds. *)
Definition Duration := Z.

(** [backoff.Stop] of github.com/cenkalti/backoff/v4: [const Stop time.Duration = -1]. *)
Definition backoff_Stop : Duration := -1.

(** Modelled from the spec: the declaration of [Tweet] is not in the
    sources at hand; the consumer in [main.go] reads its [ID] field. *)
Record Tweet := { ID : string }.

Record MatchingRule := { Id : string; Tag : string }.

(** [StreamData]; a nil pointer field is [None]. *)
Record StreamData := {
  data_Tweet : option Tweet;
  MatchingRules : list MatchingRule }.

Record StreamFilterParams := {
  Expansions : list string;
  MediaFields : list string;
  PlaceFields : list string;
  PollFields : list string;
  TweetFields : list string;
  UserFields : list string }.

(** The part of [http.Request] that [createStreamRequest] touches.  A
    [*http.Request] is an [option Request], nil being [None]. *)
Record Request := {
  Method : string;
  URL : string;
  Header : list (string * string);
  RawQuery : string }.

(** Response bodies are identified by the order in which the transport
    opened them. *)
Definition BodyId := nat.

Record Response := { StatusCode : Z; Body : BodyId }.

(** What the transport answers to one request: [client.Do] fails, or
    there is a response with a status and a body that will deliver the
    given lines and then end. *)
Inductive RoundTrip :=
| TransportError (e : error)
| Reply (status : Z) (lines : list (list byte)).

(** An [*http.Client], as far as this package sees it: the answer to the
    k-th request. *)
Definition Client := nat -> RoundTrip.

(** A response body on the network side. *)
Record Conn := { pending : list (list byte); closed : bool }.

(** The unbuffered channel [Messages]: whether it was closed, and what
    the consumer has received from it so far, oldest first.  A nil
    [*StreamData] is [None]. *)
Record Chan := { ch_closed : bool; received : list (option StreamData) }.

(** [Stream].  [done] is a [chan struct{}] on which nothing is ever sent,
    so its state is whether it was closed; [group] is the counter of the
    [sync.WaitGroup]. *)
Record Stream := {
  client : Client;
  Messages : Chan;
  done_closed : bool;
  group : Z;
  body : option BodyId }.

(** The shared world: the session object, the bodies opened so far, the
    number of requests issued, the waits slept so far (oldest first) and
    whether a consumer is receiving from [Messages]. *)
Record World := {
  stream : Stream;
  net : list Conn;
  requests : nat;
  slept : list Duration;
  receiving : bool }.

Definition with_stream (f : Stream -> Stream) (w : World) : World :=
  {| stream := f (stream w); net := net w; requests := requests w;
     slept := slept w; receiving := receiving w |}.

Definition with_net (f : list Conn -> list Conn) (w : World) : World :=
  {| stream := stream w; net := f (net w); requests := requests w;
     slept := slept w; receiving := receiving w |}.

Definition set_Messages (c : Chan) (s : Stream) : Stream :=
  {| client := client s; Messages := c; done_closed := done_closed s;
     group := group s; body := body s |}.

Definition set_done_closed (s : Stream) : Stream :=
  {| client := client s; Messages := Messages s; done_closed := true;
     group := group s; body := body s |}.

Definition set_group (n : Z) (s : Stream) : Stream :=
  {| client := client s; Messages := Messages s; done_closed := done_closed s;
     group := n; body := body s |}.

Definition set_body (b : option BodyId) (s : Stream) : Stream :=
  {| client := client s; Messages := Messages s; done_closed := done_closed s;
     group := group s; body := b |}.

Definition issued (w : World) : World :=
  {| stream := stream w; net := net w; requests := S (requests w);
     slept := slept w; receiving := receiving w |}.

Definition close_conn (c : Conn) : Conn :=
  {| pending := pending c; closed := true |}.

Definition is_closed (w : World) (b : BodyId) : bool :=
  match net w !! b with
  | Some c => closed c
  | None => false
  end.

(** ** Primitive operations *)

(** The operations a goroutine of this package performs on the world,
    indexed by the type of what they return. *)
Inductive Op : Type -> Type :=
| PollDone : Op bool
    (* select { case <-s.done: true; default: false } *)
| CloseDone : Op unit
    (* close(s.done) *)
| Send (msg : option StreamData) : Op unit
    (* s.Messages <- msg *)
| CloseMessages : Op unit
    (* close(s.Messages) *)
| ClientDo (req : option Request) : Op (option Response * option error)
    (* s.client.Do(req) *)
| ReadNext (b : BodyId) : Op (list byte * option error)
    (* reader.readNext() *)
| BodyClose (b : BodyId) : Op unit
    (* Body.Close() *)
| StoreBody (b : BodyId) : Op unit
    (* s.body = resp.Body *)
| LoadBody : Op (option BodyId)
    (* s.body *)
| GroupDone : Op unit
    (* s.group.Done() *)
| GroupWait : Op unit
    (* s.group.Wait() *)
| SleepOrDone (d : Duration) : Op unit.
    (* sleepOrDone(d, s.done) *)

(** What performing an operation does: it returns a value and a new
    world, it cannot proceed yet, or it panics. *)
Inductive Effect (X : Type) :=
| Returns (x : X) (w : World)
| Blocks
| Panics (e : error).
Arguments Returns {X} x w.
Arguments Blocks {X}.
Arguments Panics {X} e.

Definition perform {X} (op : Op X) (w : World) : Effect X :=
  match op in Op X return Effect X with
  | PollDone => Returns (done_closed (stream w)) w
  | CloseDone =>
      if done_closed (stream w) then Panics "close of closed channel"
      else Returns tt (with_stream set_done_closed w)
  | Send msg =>
      let c := Messages (stream w) in
      if ch_closed c then Panics "send on closed channel"
      else if receiving w then
        Returns tt (with_stream (set_Messages
          {| ch_closed := false; received := received c ++ [msg] |}) w)
      else Blocks
  | CloseMessages =>
      let c := Messages (stream w) in
      if ch_closed c then Panics "close of closed channel"
      else Returns tt (with_stream (set_Messages
          {| ch_closed := true; received := received c |}) w)
  | ClientDo req =>
      let w' := issued w in
      match client (stream w) (requests w) with
      | TransportError e => Returns (None, Some e) w'
      | Reply status lines =>
          Returns (Some {| StatusCode := status; Body := length (net w) |}, None)
                  (with_net (fun n => n ++ [{| pending := lines; closed := false |}]) w')
      end
  | ReadNext b =>
      match net w !! b with
      | None => Returns ([], Some "read on unknown body") w
      | Some c =>
          if closed c then Returns ([], Some "read on closed body") w
          else match pending c with
               | [] => Returns ([], Some "EOF") w
               | line :: rest =>
                   Returns (line, None)
                     (with_net (fun n => <[b := {| pending := rest; closed := false |}]> n) w)
               end
      end
  | BodyClose b => Returns tt (with_net (alter close_conn b) w)
  | StoreBody b => Returns tt (with_stream (set_body (Some b)) w)
  | LoadBody => Returns (body (stream w)) w
  | GroupDone =>
      let n := group (stream w) - 1 in
      if n <? 0 then Panics "sync: negative WaitGroup counter"
      else Returns tt (with_stream (set_group n) w)
  | GroupWait =>
      if group (stream w) =? 0 then Returns tt w else Blocks
  | SleepOrDone d =>
      Returns tt {| stream := stream w; net := net w; requests := requests w;
                    slept := slept w ++ [d]; receiving := receiving w |}
  end.

(** ** Programs *)

(** A goroutine's code: it returns, panics, performs an operation and
    goes on with the answer, or runs a loop.  [Iter body s k] runs
    [body] from the loop state [s]; [inl s'] starts the next iteration
    and [inr x] leaves the loop for [k x]. *)
Inductive Prog : Type -> Type :=
| Ret {R} (r : R) : Prog R
| Throw {R} (e : error) : Prog R
| Vis {R X} (op : Op X) (k : X -> Prog R) : Prog R
| Iter {R S X} (body : S -> Prog (S + X)) (s : S) (k : X -> Prog R) : Prog R.

Fixpoint bind {R T} (p : Prog R) : (R -> Prog T) -> Prog T :=
  match p in Prog R return (R -> Prog T) -> Prog T with
  | Ret r => fun f => f r
  | Throw e => fun _ => Throw e
  | Vis op k => fun f => Vis op (fun x => bind (k x) f)
  | Iter body s k => fun f => Iter body s (fun x => bind (k x) f)
  end.

Definition call {X} (op : Op X) : Prog X := Vis op Ret.

Declare Scope prog_scope.
Delimit Scope prog_scope with prog.
Bind Scope prog_scope with Prog.
Notation "x <- p ;; q" := (bind p (fun x => q))
  (at level 100, p at next level, right associativity) : prog_scope.
Notation "p ;; q" := (bind p (fun _ => q))
  (at level 100, right associativity) : prog_scope.

(** After one iteration of a loop: go round again or leave. *)
Definition loop_next {R S X} (body : S -> Prog (S + X)) (k : X -> Prog R)
    (r : S + X) : Prog R :=
  match r with
  | inl s' => Iter body s' k
  | inr x => k x
  end.

(** One atomic step of a goroutine. *)
Inductive Step (R : Type) :=
| Next (p : Prog R) (w : World)
| Blocked
| Done (r : R)
| Crash (e : error).
Arguments Next {R} p w.
Arguments Blocked {R}.
Arguments Done {R} r.
Arguments Crash {R} e.

Definition thread_step {R} (p : Prog R) (w : World) : Step R :=
  match p with
  | Ret r => Done r
  | Throw e => Crash e
  | Vis op k =>
      match perform op w with
      | Returns x w' => Next (k x) w'
      | Blocks => Blocked
      | Panics e => Next (Throw e) w
      end
  | Iter body s k => Next (bind (body s) (loop_next body k)) w
  end.

(** Running one goroutine on its own, the others standing still. *)
Inductive Outcome (R : Type) :=
| Finished (r : R) (w : World)
| Panicked (e : error) (w : World)
| Deadlock (w : World)
| OutOfFuel.
Arguments Finished {R} r w.
Arguments Panicked {R} e w.
Arguments Deadlock {R} w.
Arguments OutOfFuel {R}.

Fixpoint run {R} (fuel : nat) (p : Prog R) (w : World) : Outcome R :=
  match thread_step p w with
  | Done r => Finished r w
  | Crash e => Panicked e w
  | Blocked => Deadlock w
  | Next p' w' =>
      match fuel with
      | O => OutOfFuel
      | S n => run n p' w'
      end
  end.

Local Open Scope prog_scope.

(** ** The package *)

(** Modelled from the spec: [stopped] is not in the sources at hand; it
    reads the cancellation signal without waiting (spec 4.4: the
    controller "checks the cancellation signal"). *)
Definition stopped : Prog bool := call PollDone.

(** Modelled from the spec: [sleepOrDone] is not in the sources at hand;
    it sleeps for the given wait and returns early when the cancellation
    signal fires (spec 5), so it always returns. *)
Definition sleepOrDone (d : Duration) : Prog unit := call (SleepOrDone d).

(** Modelled from the spec: the response body reader is not in the
    sources at hand; [readNext] hands out the lines of the body one by
    one and then an end-of-stream or read error (spec 4.2). *)
Definition newStreamResponseBodyReader (body : BodyId) : BodyId := body.

Definition readNext (reader : BodyId) : Prog (list byte * option error) :=
  call (ReadNext reader).

(** The interface [backoff.BackOff]: [NextBackOff] yields a wait and
    moves the policy on, [Reset] puts it back to its initial state. *)
Class BackOff (B : Type) := {
  NextBackOff : B -> Duration * B;
  Reset : B -> B }.

(** What [defer] has stacked up in [retry], most recent first. *)
Inductive Deferred :=
| DeferCloseMessages            (* defer close(s.Messages) *)
| DeferGroupDone                (* defer s.group.Done() *)
| DeferBodyClose (b : BodyId).  (* defer resp.Body.Close() *)

Definition run_deferred_call (d : Deferred) : Prog unit :=
  match d with
  | DeferCloseMessages => call CloseMessages
  | DeferGroupDone => call GroupDone
  | DeferBodyClose b => call (BodyClose b)
  end.

(** The deferred calls run last in, first out. *)
Fixpoint run_deferred (ds : list Deferred) : Prog unit :=
  match ds with
  | [] => Ret tt
  | d :: rest => run_deferred_call d ;; run_deferred rest
  end.

(** How the body of a function is left: by [return] or by [panic]. *)
Inductive Exit :=
| Return
| Panic (e : error).

(** A call that gives a value or panics. *)
Inductive Try (A : Type) :=
| Value (a : A)
| Panicking (e : error).
Arguments Value {A} a.
Arguments Panicking {A} e.

Definition streamV2Endpoint : string := "https://api.twitter.com/2/tweets/search".

(** [StreamService]. *)
Record StreamService := { srv_client : Client; token : string }.

Definition NewStreamService (client : Client) (token : string) : StreamService :=
  {| srv_client := client; token := token |}.

(** [Header.Set]: the entries of the key are replaced by the one value. *)
Definition Header_Set (key value : string) (r : Request) : Request :=
  {| Method := Method r; URL := URL r;
     Header := (key, value) :: filter (fun kv => negb (String.eqb (fst kv) key)) (Header r);
     RawQuery := RawQuery r |}.

Definition set_RawQuery (q : string) (r : Request) : Request :=
  {| Method := Method r; URL := URL r; Header := Header r; RawQuery := q |}.

(** What [newStream] leaves behind: the session object in its world and
    the goroutine it started. *)
Record Session := { shared : World; background : Prog unit }.

Section Package.

(** [encoding/json]: [json.Unmarshal(token, data)] fills [data] and
    returns an error or nil. *)
Variable json_Unmarshal : list byte -> StreamData -> StreamData * option error.

(** [net/http]: [http.NewRequest(method, url, nil)]. *)
Variable http_NewRequest : string -> string -> option Request * option error.

(** [go-querystring]: [query.Values(params)] followed by [Encode]. *)
Variable query_Values :
  option StreamFilterParams -> list (string * list string) * option error.
Variable Values_Encode : list (string * list string) -> string.

Context {B : Type} `{BackOff B}.

(** Modelled from the spec: the two constructors are not in the
    sources at hand; they give the Standard and the Aggressive policy
    in their initial state (spec 4.1). *)
Variable newExponentialBackOff : B.
Variable newAggressiveExponentialBackOff : B.

(** [getMessage], lines 183-191. *)
Definition getMessage (token : list byte) : option StreamData * option error :=
  let data := {| data_Tweet := None; MatchingRules := [] |} in
  let (data, err) := json_Unmarshal token data in
  match err with
  | Some e => (None, Some e)
  | None => (Some data, None)
  end.

(** The [select] of [receive], lines 168-176: leave when [done] is
    closed, else decode and send. *)
Definition receive_select (data : list byte) : Prog (unit + unit) :=
  sel <- call PollDone ;;
  if sel : bool then Ret (inr tt)                 (* case <-s.done: return *)
  else
    let (msg, _) := getMessage data in            (* default: *)
    call (Send msg) ;;
    Ret (inl tt).

(** Lines 160-167 and what follows them: read a line; leave on an
    error, go round again on a keep-alive, else go to the [select]. *)
Definition receive_read (reader : BodyId) : Prog (unit + unit) :=
  r <- readNext reader ;;
  let (data, err) := r : list byte * option error in
  match err with
  | Some _ => Ret (inr tt)                        (* return *)
  | None =>
      if (length data =? 0)%nat then Ret (inl tt)  (* continue *)
      else receive_select data
  end.

(** One turn of the loop of [receive], lines 159-177. *)
Definition receive_turn (reader : BodyId) (_ : unit) : Prog (unit + unit) :=
  st <- stopped ;;
  if st : bool then Ret (inr tt)
  else receive_read reader.

(** [receive], lines 157-178. *)
Definition receive (body : BodyId) : Prog unit :=
  let reader := newStreamResponseBodyReader body in
  Iter (receive_turn reader) tt Ret.

(** The local variables of [retry]. *)
Record Locals := {
  wait : Duration;
  expBackOff : B;
  aggExpBackOff : B;
  deferred : list Deferred }.

Definition push_deferred (d : Deferred) (l : Locals) : Locals :=
  {| wait := wait l; expBackOff := expBackOff l;
     aggExpBackOff := aggExpBackOff l; deferred := d :: deferred l |}.

(** Lines 145-150: what follows the [switch] in the cases that fall
    out of it. *)
Definition after_switch (resp : Response) (l : Locals) : Prog (Locals + Locals * Exit) :=
  call (BodyClose (Body resp)) ;;
  if wait l =? backoff_Stop then Ret (inr (l, Return))
  else
    sleepOrDone (wait l) ;;
    Ret (inl l).

(** The [switch] of [retry], lines 127-144, with what follows it. *)
Definition retry_switch (resp : Response) (l : Locals) : Prog (Locals + Locals * Exit) :=
  if StatusCode resp =? 200 then
    receive (Body resp) ;;
    after_switch resp
      {| wait := wait l;
         expBackOff := Reset (expBackOff l);
         aggExpBackOff := Reset (aggExpBackOff l);
         deferred := deferred l |}
  else if StatusCode resp =? 503 then
    let (d, b) := NextBackOff (expBackOff l) in
    after_switch resp
      {| wait := d; expBackOff := b;
         aggExpBackOff := aggExpBackOff l; deferred := deferred l |}
  else if (StatusCode resp =? 420) || (StatusCode resp =? 429) then
    let (d, b) := NextBackOff (aggExpBackOff l) in
    after_switch resp
      {| wait := d; expBackOff := expBackOff l;
         aggExpBackOff := b; deferred := deferred l |}
  else
    call (BodyClose (Body resp)) ;;
    Ret (inr (l, Return)).

(** Lines 119-126 and what follows them: the request is issued; on an
    error the function panics, else the close of the body is deferred
    and the body is held in [s.body]. *)
Definition retry_request (req : option Request) (l : Locals) : Prog (Locals + Locals * Exit) :=
  r <- call (ClientDo req) ;;
  match r : option Response * option error with
  | (_, Some err) => Ret (inr (l, Panic err))       (* panic(err) *)
  | (None, None) =>                                  (* resp.Body on a nil resp *)
      Ret (inr (l, Panic "invalid memory address or nil pointer dereference"))
  | (Some resp, None) =>
      let l := push_deferred (DeferBodyClose (Body resp)) l in
      call (StoreBody (Body resp)) ;;
      retry_switch resp l
  end.

(** One turn of the loop of [retry], lines 118-151. *)
Definition retry_turn (req : option Request) (l : Locals) : Prog (Locals + Locals * Exit) :=
  st <- stopped ;;
  if st : bool then Ret (inr (l, Return))
  else retry_request req l.

(** [retry], lines 112-152.  The two [defer]s of lines 114-115 are
    stacked first; when the loop is left, by [return] or by [panic],
    everything deferred runs, and a panic then goes on. *)
Definition retry_exit (x : Locals * Exit) : Prog unit :=
  run_deferred (deferred (fst x)) ;;
  match snd x with
  | Return => Ret tt
  | Panic e => Throw e
  end.

Definition retry_from (req : option Request) (l : Locals) : Prog unit :=
  x <- Iter (retry_turn req) l Ret ;;
  retry_exit x.

Definition retry (req : option Request) (expBackOff aggExpBackOff : B) : Prog unit :=
  retry_from req
    {| wait := 0; expBackOff := expBackOff; aggExpBackOff := aggExpBackOff;
       deferred := [DeferGroupDone; DeferCloseMessages] |}.

(** [Stop], lines 96-106. *)
Definition Stop : Prog unit :=
  call CloseDone ;;
  b <- call LoadBody ;;
  match b with
  | Some c => call (BodyClose c)
  | None => Ret tt
  end ;;
  call GroupWait.

(** [createStreamRequest], lines 29-37.  Both errors are dropped; a nil
    request would make [req.Header.Set] panic. *)
Definition createStreamRequest (params : option StreamFilterParams) (token : string)
    : Try (option Request * option error) :=
  let url := (streamV2Endpoint ++ "/" ++ "stream")%string in
  let (req, _) := http_NewRequest "GET" url in
  match req with
  | None => Panicking "invalid memory address or nil pointer dereference"
  | Some req =>
      let req := Header_Set "Authorization" ("Bearer " ++ token)%string req in
      let (q, _) := query_Values params in
      let req := set_RawQuery (Values_Encode q) req in
      Value (Some req, None)
  end.

(** [newStream], lines 82-92: the channels are made, the wait group
    counts one, and the goroutine running [retry] is started. *)
Definition newStream (client : Client) (req : option Request) : Session :=
  let s := {| client := client;
              Messages := {| ch_closed := false; received := [] |};
              done_closed := false;
              group := 0;
              body := None |} in
  let s := set_group (group s + 1) s in
  {| shared := {| stream := s; net := []; requests := 0; slept := [];
                  receiving := true |};
     background := retry req newExponentialBackOff newAggressiveExponentialBackOff |}.

(** [Connect], lines 39-45. *)
Definition Connect (srv : StreamService) (params : option StreamFilterParams)
    : Try (option Session * option error) :=
  match createStreamRequest params (token srv) with
  | Panicking e => Panicking e
  | Value (_, Some err) => Value (None, Some err)
  | Value (req, None) => Value (Some (newStream (srv_client srv) req), None)
  end.

End Package.

Arguments Locals B : clear implicits.

(** ** Two goroutines *)

(** The background goroutine and the caller's goroutine over one world. *)
Record Machine := { world : World; task : Prog unit; caller : Prog unit }.

Definition start (s : Session) (caller : Prog unit) : Machine :=
  {| world := shared s; task := background s; caller := caller |}.

(** A goroutine whose panic reached the top of its stack: the Go runtime
    then ends the whole process. *)
Definition crashed {R} (p : Prog R) : bool :=
  match p with
  | Throw _ => true
  | _ => false
  end.

(** A goroutine that is over, one way or the other. *)
Definition exited {R} (p : Prog R) : bool :=
  match p with
  | Ret _ | Throw _ => true
  | _ => false
  end.

Inductive Who := Task | Caller.

(** One step of the machine: the chosen goroutine takes its step, unless
    the process is dead. *)
Definition machine_step (who : Who) (m : Machine) : option Machine :=
  if crashed (task m) || crashed (caller m) then None
  else
    match who with
    | Task =>
        match thread_step (task m) (world m) with
        | Next p w => Some {| world := w; task := p; caller := caller m |}
        | _ => None
        end
    | Caller =>
        match thread_step (caller m) (world m) with
        | Next p w => Some {| world := w; task := task m; caller := p |}
        | _ => None
        end
    end.

Definition mstep (m m' : Machine) : Prop :=
  exists who, machine_step who m = Some m'.

(** Running the machine under a given schedule. *)
Fixpoint schedule (sched : list Who) (m : Machine) : option Machine :=
  match sched with
  | [] => Some m
  | who :: rest =>
      match machine_step who m with
      | Some m' => schedule rest m'
      | None => None
      end
  end.

(** Where the machine is after a schedule, as far as it could follow it. *)
Fixpoint after (sched : list Who) (m : Machine) : Machine :=
  match sched with
  | [] => m
  | who :: rest =>
      match machine_step who m with
      | Some m' => after rest m'
      | None => m
      end
  end.

(** A caller that calls [Stop] and, when that has returned, calls it
    again. *)
Definition Stop_twice : Prog unit := Stop ;; Stop.

(** One goroutine on its own, as a relation on its code and the world. *)
Definition cstep {R} (c c' : Prog R * World) : Prop :=
  thread_step (fst c) (snd c) = Next (fst c') (snd c').

(** ** What the specification says a line gives *)

Section Emit.

Variable json_Unmarshal : list byte -> StreamData -> StreamData * option error.

(** The messages a line puts on the channel: none for a keep-alive,
    else what [getMessage] gives for it. *)
Definition emit (line : list byte) : list (option StreamData) :=
  if (length line =? 0)%nat then []
  else [fst (getMessage json_Unmarshal line)].

(** A line that decodes. *)
Definition well_formed (line : list byte) : Prop :=
  snd (getMessage json_Unmarshal line) = None.

End Emit.

(** The world after [receive] has read a body to its end: the lines are
    consumed and the consumer has their messages. *)
Definition drained (json_Unmarshal : list byte -> StreamData -> StreamData * option error)
    (b : BodyId) (lines : list (list byte)) (w : World) : World :=
  with_net (fun n => <[b := {| pending := []; closed := false |}]> n)
    (with_stream (set_Messages
       {| ch_closed := false;
          received := received (Messages (stream w))
                        ++ flat_map (emit json_Unmarshal) lines |}) w).

(** Every body the transport has opened is closed. *)
Definition all_closed (w : World) : Prop :=
  Forall (fun c => closed c = true) (net w).

(** ** The retry controller as a table *)

Section Controller.

Context {B : Type} `{BackOff B}.

(** Lines 147-150 of [retry] as a decision: leave on the stop
    sentinel, else go round again. *)
Definition stop_or_continue (l : Locals B) : Locals B + Locals B * Exit :=
  if wait l =? backoff_Stop then inr (l, Return) else inl l.

(** The transition table of the controller (spec 4.4): what one
    request cycle makes of the local variables [l], given the answer of
    the transport, [b] being the body of the response.  [inl] starts
    the next cycle, [inr] leaves the loop. *)
Definition transition (l : Locals B) (b : BodyId) (answer : RoundTrip)
    : Locals B + Locals B * Exit :=
  match answer with
  | TransportError e => inr (l, Panic e)
  | Reply status _ =>
      let ds := DeferBodyClose b :: deferred l in
      if status =? 200 then
        stop_or_continue
          {| wait := wait l;
             expBackOff := Reset (expBackOff l);
             aggExpBackOff := Reset (aggExpBackOff l);
             deferred := ds |}
      else if status =? 503 then
        stop_or_continue
          {| wait := fst (NextBackOff (expBackOff l));
             expBackOff := snd (NextBackOff (expBackOff l));
             aggExpBackOff := aggExpBackOff l;
             deferred := ds |}
      else if (status =? 420) || (status =? 429) then
        stop_or_continue
          {| wait := fst (NextBackOff (aggExpBackOff l));
             expBackOff := expBackOff l;
             aggExpBackOff := snd (NextBackOff (aggExpBackOff l));
             deferred := ds |}
      else
        inr ({| wait := wait l; expBackOff := expBackOff l;
                aggExpBackOff := aggExpBackOff l; deferred := ds |}, Return)
  end.

(** What holds whenever [retry] is at the head of its loop: the
    deferred calls are the body closes of the cycles so far on top of
    the two of lines 114-115, the wait is not the stop sentinel, the
    wait group still counts this goroutine, [Messages] is open, and no
    body is open. *)
Definition at_loop_head (l : Locals B) (w : World) : Prop :=
  (exists bs, deferred l = map DeferBodyClose bs ++ [DeferGroupDone; DeferCloseMessages])
  /\ wait l <> backoff_Stop
  /\ 1 <= group (stream w)
  /\ ch_closed (Messages (stream w)) = false
  /\ all_closed w.

End Controller.

(** ** The worlds a request cycle leaves *)

Definition with_slept (d : Duration) (w : World) : World :=
  {| stream := stream w; net := net w; requests := requests w;
     slept := slept w ++ [d]; receiving := receiving w |}.

(** The world after lines 145-150 with the wait [d]: the body is closed
    and, unless [d] is the stop sentinel, [d] has been slept. *)
Definition after_switch_world (b : BodyId) (d : Duration) (w : World) : World :=
  let w1 := with_net (alter close_conn b) w in
  if d =? backoff_Stop then w1 else with_slept d w1.

(** The world in which a response with the given lines has arrived and
    its body is held in [s.body]. *)
Definition responded (lines : list (list byte)) (w : World) : World :=
  with_stream (set_body (Some (length (net w))))
    (with_net (fun n => n ++ [{| pending := lines; closed := false |}]) (issued w)).

Section TurnWorld.

Variable json_Unmarshal : list byte -> StreamData -> StreamData * option error.
Context {B : Type} `{BackOff B}.

(** The world one request cycle of [retry] leaves, next to
    [transition]. *)
Definition turn_world (l : Locals B) (w : World) : World :=
  match client (stream w) (requests w) with
  | TransportError _ => issued w
  | Reply status lines =>
      let b := length (net w) in
      let w1 := responded lines w in
      if status =? 200 then
        after_switch_world b (wait l) (drained json_Unmarshal b lines w1)
      else if status =? 503 then
        after_switch_world b (fst (NextBackOff (expBackOff l))) w1
      else if (status =? 420) || (status =? 429) then
        after_switch_world b (fst (NextBackOff (aggExpBackOff l))) w1
      else with_net (alter close_conn b) w1
  end.

End TurnWorld.

(** The world after the deferred body closes. *)
Fixpoint close_all (bs : list BodyId) (w : World) : World :=
  match bs with
  | [] => w
  | b :: rest => close_all rest (with_net (alter close_conn b) w)
  end.

(** The world after everything deferred in [retry] has run. *)
Definition wound_up (bs : list BodyId) (w : World) : World :=
  let w1 := close_all bs w in
  let w2 := with_stream (set_group (group (stream w1) - 1)) w1 in
  with_stream (set_Messages
    {| ch_closed := true; received := received (Messages (stream w2)) |}) w2.

(** ** How a run of [retry] goes on *)

Section Runs.

Variable json_Unmarshal : list byte -> StreamData -> StreamData * option error.
Context {B : Type} `{BackOff B}.
Variable req : option Request.

(** From the head of the loop with locals [l] in world [w], [retry]
    comes to the head of the loop again, with locals [l'] in world
    [w']. *)
Definition goes_round (l : Locals B) (w : World) (l' : Locals B) (w' : World) : Prop :=
  exists n, (0 < n)%nat /\
    forall m, run (n + m) (retry_from json_Unmarshal req l) w
              = run m (retry_from json_Unmarshal req l') w'.

(** From the head of the loop, [retry] issues this one request and
    returns, without a panic and without sleeping. *)
Definition returns_after_one_request (l : Locals B) (w : World) : Prop :=
  exists n w',
    run n (retry_from json_Unmarshal req l) w = Finished tt w'
    /\ requests w' = S (requests w)
    /\ slept w' = slept w.

End Runs.

(** ** Where the background goroutine can be *)

(** What the caller's goroutine does to the session: the operations of
    [Stop]. *)
Definition caller_op {X} (op : Op X) : bool :=
  match op with
  | CloseDone | LoadBody | BodyClose _ | GroupWait => true
  | _ => false
  end.

(** A caller that does nothing else to the session, as a client of the
    package that reads [Messages] and calls [Stop], however often. *)
Inductive polite {R} : Prog R -> Prop :=
| polite_Ret r : polite (Ret r)
| polite_Throw e : polite (Throw e)
| polite_Vis {X} (op : Op X) k :
    caller_op op = true -> (forall x, polite (k x)) -> polite (Vis op k).

(** The deferred calls of [retry] while it is in its loop: body closes
    on top of the two of lines 114-115. *)
Definition stacked (ds : list Deferred) : Prop :=
  exists bs, ds = map DeferBodyClose bs ++ [DeferGroupDone; DeferCloseMessages].

(** [Messages] is open and the wait group counts the goroutine. *)
Definition running (w : World) : Prop :=
  ch_closed (Messages (stream w)) = false /\ group (stream w) = 1.

(** Between two request cycles no body is open. *)
Definition between (ds : list Deferred) (w : World) : Prop :=
  running w /\ stacked ds /\ all_closed w.

(** Inside a request cycle the body [b] of its response is the last one
    opened, its close is deferred, and the bodies before it are closed. *)
Definition holding (b : BodyId) (ds : list Deferred) (w : World) : Prop :=
  running w /\ stacked ds /\ length (net w) = S b
  /\ forall i c, (i < b)%nat -> net w !! i = Some c -> closed c = true.

Section Positions.

Variable json_Unmarshal : list byte -> StreamData -> StreamData * option error.
Context {B : Type} `{BackOff B}.
Variable req : option Request.

(** The points of [retry] at which the background goroutine takes its
    steps. *)
Inductive Pos :=
| AtLoop (l : Locals B)                         (* line 118, the loop condition *)
| AtTurn (l : Locals B)                         (* line 118, [stopped] *)
| AtRequest (l : Locals B)                      (* line 119 *)
| AtStore (resp : Response) (l : Locals B)      (* line 126 *)
| AtReceiveLoop (resp : Response) (l : Locals B)   (* line 159, the loop condition *)
| AtReceiveTurn (resp : Response) (l : Locals B)   (* line 159, [stopped] *)
| AtRead (resp : Response) (l : Locals B)          (* line 160 *)
| AtSelect (resp : Response) (l : Locals B) (data : list byte)            (* line 168 *)
| AtSend (resp : Response) (l : Locals B) (msg : option StreamData)       (* line 175 *)
| AtClose (resp : Response) (l : Locals B)      (* line 146 *)
| AtSleep (l : Locals B)                        (* line 150 *)
| AtLastClose (resp : Response) (l : Locals B)  (* line 142 *)
| AtExit (ds : list Deferred) (ex : Exit).      (* the deferred calls, then the end *)

(** What follows a request cycle of [retry]. *)
Definition next_cycle : Locals B + Locals B * Exit -> Prog unit :=
  loop_next (retry_turn json_Unmarshal req) retry_exit.

(** What follows [receive] in the cycle: lines 131-132 and 145-150. *)
Definition after_receive (resp : Response) (l : Locals B) : unit -> Prog unit :=
  fun _ => bind (after_switch resp l) next_cycle.

Definition next_line (resp : Response) (l : Locals B) : unit + unit -> Prog unit :=
  loop_next (receive_turn json_Unmarshal (Body resp)) (after_receive resp l).

Definition the_end (ex : Exit) : Prog unit :=
  match ex with
  | Return => Ret tt
  | Panic e => Throw e
  end.

(** The code the goroutine still has to run at each point. *)
Definition code (pos : Pos) : Prog unit :=
  match pos with
  | AtLoop l => Iter (retry_turn json_Unmarshal req) l retry_exit
  | AtTurn l => bind (retry_turn json_Unmarshal req l) next_cycle
  | AtRequest l => bind (retry_request json_Unmarshal req l) next_cycle
  | AtStore resp l =>
      bind (call (StoreBody (Body resp)) ;; retry_switch json_Unmarshal resp l) next_cycle
  | AtReceiveLoop resp l =>
      Iter (receive_turn json_Unmarshal (Body resp)) tt (after_receive resp l)
  | AtReceiveTurn resp l =>
      bind (receive_turn json_Unmarshal (Body resp) tt) (next_line resp l)
  | AtRead resp l => bind (receive_read json_Unmarshal (Body resp)) (next_line resp l)
  | AtSelect resp l data => bind (receive_select json_Unmarshal data) (next_line resp l)
  | AtSend resp l msg => bind (call (Send msg) ;; Ret (inl tt)) (next_line resp l)
  | AtClose resp l => bind (after_switch resp l) next_cycle
  | AtSleep l => bind (sleepOrDone (wait l) ;; Ret (inl l)) next_cycle
  | AtLastClose resp l =>
      bind (call (BodyClose (Body resp)) ;; Ret (inr (l, Return))) next_cycle
  | AtExit ds ex => bind (run_deferred ds) (fun _ => the_end ex)
  end.

(** What holds of the world at each point. *)
Definition holds (pos : Pos) (w : World) : Prop :=
  match pos with
  | AtLoop l | AtTurn l | AtRequest l | AtSleep l => between (deferred l) w
  | AtStore resp l | AtLastClose resp l => holding (Body resp) (deferred l) w
  | AtReceiveLoop resp l | AtReceiveTurn resp l | AtRead resp l
  | AtSelect resp l _ | AtSend resp l _ | AtClose resp l =>
      holding (Body resp) (deferred l) w
  | AtExit ds ex =>
      all_closed w
      /\ ((stacked ds /\ running w)
          \/ (ds = [DeferCloseMessages]
              /\ ch_closed (Messages (stream w)) = false /\ group (stream w) = 0)
          \/ (ds = []
              /\ ch_closed (Messages (stream w)) = true /\ group (stream w) = 0))
  end.

(** The body of the request cycle the goroutine is in, if it is in one
    and has not yet closed it. *)
Definition cycle_body (pos : Pos) : option BodyId :=
  match pos with
  | AtLoop _ | AtTurn _ | AtRequest _ | AtSleep _ | AtExit _ _ => None
  | AtStore resp _ | AtLastClose resp _ | AtReceiveLoop resp _ | AtReceiveTurn resp _
  | AtRead resp _ | AtSelect resp _ _ | AtSend resp _ _ | AtClose resp _ =>
      Some (Body resp)
  end.


(** The goroutine is at the head of the loop of [retry]. *)
Definition at_head (pos : Pos) : bool :=
  match pos with
  | AtLoop _ => true
  | _ => false
  end.

End Positions.

Arguments Pos B : clear implicits.

(** The machine is somewhere in [retry] with a caller that only stops. *)
Definition sound {B : Type} `{BackOff B}
    (json_Unmarshal : list byte -> StreamData -> StreamData * option error)
    (req : option Request) (m : Machine) (pos : Pos B) : Prop :=
  task m = code json_Unmarshal req pos /\ holds pos (world m) /\ polite (caller m).

(** ** Environments for the examples *)

(** A policy that hands out a fixed list of waits and then [backoff.Stop]. *)
Record Scripted := { script : list Duration; remaining : list Duration }.

Definition scripted (ds : list Duration) : Scripted :=
  {| script := ds; remaining := ds |}.

#[export] Instance Scripted_BackOff : BackOff Scripted := {|
  NextBackOff s :=
    match remaining s with
    | [] => (backoff_Stop, s)
    | d :: rest => (d, {| script := script s; remaining := rest |})
    end;
  Reset s := {| script := script s; remaining := script s |} |}.

Definition quote : string := String "034"%char EmptyString.

(** The line [{"data":{"id":"<id>"}}]. *)
Definition tweet_line (id : string) : list byte :=
  list_byte_of_string
    ("{" ++ quote ++ "data" ++ quote ++ ":{" ++ quote ++ "id" ++ quote ++ ":"
         ++ quote ++ id ++ quote ++ "}}")%string.

Fixpoint strip_prefix (p s : string) : option string :=
  match p, s with
  | EmptyString, _ => Some s
  | String a p', String b s' => if Ascii.eqb a b then strip_prefix p' s' else None
  | String _ _, EmptyString => None
  end.

Fixpoint strip_suffix_quote (s : string) : option string :=
  match s with
  | EmptyString => None
  | String a s' =>
      if Ascii.eqb a "034"%char then
        if String.eqb s' "}}" then Some EmptyString else None
      else option_map (String a) (strip_suffix_quote s')
  end.

(** [json.Unmarshal] on the lines of the examples: the empty object, and
    an object whose [data] holds an [id]; anything else is refused. *)
Definition example_Unmarshal (token : list byte) (data : StreamData)
    : StreamData * option error :=
  let s := string_of_list_byte token in
  if String.eqb s "{}" then (data, None)
  else
    match strip_prefix
            ("{" ++ quote ++ "data" ++ quote ++ ":{" ++ quote ++ "id" ++ quote ++ ":"
                 ++ quote)%string s with
    | Some rest =>
        match strip_suffix_quote rest with
        | Some id =>
            ({| data_Tweet := Some {| ID := id |};
                MatchingRules := MatchingRules data |}, None)
        | None => (data, Some "unexpected end of JSON input")
        end
    | None => (data, Some "invalid character")
    end.

(** [http.NewRequest] on a well-formed method and URL. *)
Definition example_NewRequest (method url : string) : option Request * option error :=
  (Some {| Method := method; URL := url; Header := []; RawQuery := "" |}, None).

(** [query.Values] and [Encode] for parameters that are all empty. *)
Definition example_Values (params : option StreamFilterParams)
    : list (string * list string) * option error := ([], None).

Definition example_Encode (q : list (string * list string)) : string := "".

(** [query.Values] refusing its argument. *)
Definition refusing_Values (params : option StreamFilterParams)
    : list (string * list string) * option error :=
  ([], Some "query: Values() expects struct input").

Definition second : Duration := 1000000000.

(** A transport that gives the listed answers and then refuses the
    connection. *)
Definition answering (answers : list RoundTrip) : Client :=
  fun k => nth k answers (TransportError "connection refused").

Definition example_request : option Request :=
  Some {| Method := "GET"; URL := (streamV2Endpoint ++ "/stream")%string;
          Header := [("Authorization", "Bearer t")]; RawQuery := "" |}.

(** The session that [Connect] gives in the examples: the Standard
    policy hands out half a second and then stops, the Aggressive one two
    and four seconds. *)
Definition example_session (answers : list RoundTrip) : Session :=
  newStream example_Unmarshal (scripted [second / 2]) (scripted [2 * second; 4 * second])
    (answering answers) example_request.

(** The locals of [retry] when it starts in that session. *)
Definition first_locals : Locals Scripted :=
  {| wait := 0;
     expBackOff := scripted [second / 2];
     aggExpBackOff := scripted [2 * second; 4 * second];
     deferred := [DeferGroupDone; DeferCloseMessages] |}.

(** The world of a session at the moment a 200 response whose body will
    deliver the given lines has arrived and [receive] starts on it. *)
Definition streaming (lines : list (list byte)) : World :=
  {| stream := {| client := fun _ => TransportError "connection refused";
                  Messages := {| ch_closed := false; received := [] |};
                  done_closed := false;
                  group := 1;
                  body := Some 0%nat |};
     net := [{| pending := lines; closed := false |}];
     requests := 1;
     slept := [];
     receiving := true |}.

(** The same with [done] closed meanwhile. *)
Definition cancelled (lines : list (list byte)) : World :=
  with_stream set_done_closed (streaming lines).

(** A line that is not JSON. *)
Definition bad_line : list byte := list_byte_of_string "{".

Definition tweet (id : string) : option StreamData :=
  Some {| data_Tweet := Some {| ID := id |}; MatchingRules := [] |}.

(** How a run ended, how many requests it issued and what it slept. *)
Definition report {R} (o : Outcome R) : option (option error * nat * list Duration) :=
  match o with
  | Finished _ w => Some (None, requests w, slept w)
  | Panicked e w => Some (Some e, requests w, slept w)
  | Deadlock _ | OutOfFuel => None
  end.

(** What the consumer has received when a run is over. *)
Definition delivered {R} (o : Outcome R) : option (list (option StreamData)) :=
  match o with
  | Finished _ w | Panicked _ w | Deadlock w => Some (received (Messages (stream w)))
  | OutOfFuel => None
  end.

(** ** Several request cycles *)

Section Policies.

Context {B : Type} `{BackOff B}.

(** The first [k] waits a policy hands out, and the policy after them. *)
Fixpoint waits (k : nat) (b : B) : list Duration :=
  match k with
  | O => []
  | S k' => fst (NextBackOff b) :: waits k' (snd (NextBackOff b))
  end.

Fixpoint advance (k : nat) (b : B) : B :=
  match k with
  | O => b
  | S k' => advance k' (snd (NextBackOff b))
  end.

End Policies.

(** The transport answers the next [k] requests with the given status. *)
Definition answers_status (status : Z) (w : World) (k : nat) : Prop :=
  forall i, (i < k)%nat ->
    exists lines, client (stream w) (requests w + i)%nat = Reply status lines.

(** The transport answers the next [k] requests with a 420 or a 429. *)
Definition answers_rate_limited (w : World) (k : nat) : Prop :=
  forall i, (i < k)%nat ->
    exists status lines,
      client (stream w) (requests w + i)%nat = Reply status lines
      /\ (status = 420 \/ status = 429).

(** The transport answers the next requests with a 200 and the given
    bodies, one after the other. *)
Definition answers_bodies (bodies : list (list (list byte))) (w : World) : Prop :=
  forall i lines, bodies !! i = Some lines ->
    client (stream w) (requests w + i)%nat = Reply 200 lines.

Section Rounds.

Variable json_Unmarshal : list byte -> StreamData -> StreamData * option error.
Context {B : Type} `{BackOff B}.
Variable req : option Request.

(** From the head of the loop with locals [l] in world [w], [retry]
    comes to the head of the loop with locals [l'] in world [w'], after
    any number of request cycles. *)
Definition comes_to (l : Locals B) (w : World) (l' : Locals B) (w' : World) : Prop :=
  exists n, forall m, run (n + m) (retry_from json_Unmarshal req l) w
                      = run m (retry_from json_Unmarshal req l') w'.

(** Where [retry] is after such cycles, and that it can go on from
    there. *)
Definition still_looping (l : Locals B) (w : World) (l' : Locals B) (w' : World) : Prop :=
  comes_to l w l' w'
  /\ at_loop_head l' w'
  /\ done_closed (stream w') = false
  /\ receiving w' = true
  /\ client (stream w') = client (stream w).

End Rounds.

Section Cycles.

Variable json_Unmarshal : list byte -> StreamData -> StreamData * option error.
Context {B : Type} `{BackOff B}.

(** The status table applied to [k] request cycles in a row, as far as
    the loop goes on. *)
Fixpoint cycles (k : nat) (l : Locals B) (w : World)
    : (Locals B + Locals B * Exit) * World :=
  match k with
  | O => (inl l, w)
  | S k' =>
      match transition l (length (net w)) (client (stream w) (requests w)) with
      | inl l' => cycles k' l' (turn_world json_Unmarshal l w)
      | inr x => (inr x, turn_world json_Unmarshal l w)
      end
  end.




End Cycles.

(** ** The steps of [Stop] *)

(** Lines 101-105, after the close of [done]. *)
Definition Stop_after_close : Prog unit :=
  b <- call LoadBody ;;
  match b with
  | Some c => call (BodyClose c)
  | None => Ret tt
  end ;;
  call GroupWait.

(** Lines 101-105, after the read of [s.body]. *)
Definition Stop_with_body (b : option BodyId) : Prog unit :=
  match b with
  | Some c => call (BodyClose c)
  | None => Ret tt
  end ;;
  call GroupWait.

(** A call of [Stop] that has not returned yet. *)
Definition in_Stop (p : Prog unit) : Prop :=
  p = Stop \/ p = Stop_after_close \/ exists b, p = Stop_with_body b.

(** Where a caller that called [Stop] can be: in the call, dead of its
    panic, or back from it with the wait group released. *)
Definition Stop_progress (m : Machine) : Prop :=
  in_Stop (caller m)
  \/ crashed (caller m) = true
  \/ (caller m = Ret tt /\ group (stream (world m)) = 0).

(** The machine with nobody receiving from [Messages] any more. *)
Definition consumer_gone (m : Machine) : Machine :=
  {| world := {| stream := stream (world m); net := net (world m);
                 requests := requests (world m); slept := slept (world m);
                 receiving := false |};
     task := task m; caller := caller m |}.

(** ** The consumer of [main.go] *)

Definition nil_dereference : error :=
  "invalid memory address or nil pointer dereference".

(** [HandleChan], [main.go] lines 14-18, on what the channel delivers
    until it is closed: the lines it prints, and the panic that ended
    it if one did.  [message.Tweet.ID] dereferences the message and its
    [Tweet]. *)
Fixpoint HandleChan (messages : list (option StreamData)) : list string * option error :=
  match messages with
  | [] => ([], None)                             (* the channel is closed *)
  | message :: rest =>
      match message with
      | None => ([], Some nil_dereference)       (* message.Tweet on a nil message *)
      | Some d =>
          match data_Tweet d with
          | None => ([], Some nil_dereference)   (* Tweet.ID on a nil Tweet *)
          | Some t =>
              let (printed, e) := HandleChan rest in
              (ID t :: printed, e)               (* fmt.Println(message.Tweet.ID) *)
          end
      end
  end.

(** A message [HandleChan] can print, and what it prints for it. *)
Definition carries_tweet (message : option StreamData) : Prop :=
  exists d t, message = Some d /\ data_Tweet d = Some t.

Definition printed_id (message : option StreamData) : string :=
  match message with
  | Some {| data_Tweet := Some t |} => ID t
  | _ => ""
  end.

(** * Properties *)

(** ** Running a goroutine *)

Lemma step_l {R} n (p p' : Prog R) w w' c :
  thread_step p w = Next p' w' ->
  nsteps cstep n (p', w') c ->
  nsteps cstep (S n) (p, w) c.
Proof. intros Hs Hn. eapply nsteps_l; [|exact Hn]. exact Hs. Qed.

Lemma run_nsteps {R} n (p q : Prog R) w w' :
  nsteps cstep n (p, w) (q, w') ->
  forall m, run (n + m) p w = run m q w'.
Proof.
  intros Hn. remember (p, w) as c eqn:Hc. remember (q, w') as c' eqn:Hc'.
  revert p w Hc. induction Hn as [c|n c [p1 w1] c' Hs Hn IH]; intros p w Hc m; subst.
  - injection Hc as -> ->. reflexivity.
  - unfold cstep in Hs. simpl in Hs. simpl. rewrite Hs. apply IH; reflexivity.
Qed.

Lemma run_short {R} n (p q : Prog R) w w' :
  nsteps cstep n (p, w) (q, w') ->
  forall fuel, (fuel < n)%nat -> run fuel p w = OutOfFuel.
Proof.
  intros Hn. remember (p, w) as c eqn:Hc. remember (q, w') as c' eqn:Hc'.
  revert p w Hc. induction Hn as [c|n c [p1 w1] c' Hs Hn IH]; intros p w Hc fuel Hlt; subst.
  - lia.
  - unfold cstep in Hs. simpl in Hs. destruct fuel as [|fuel]; simpl; rewrite Hs.
    + reflexivity.
    + apply IH; try reflexivity; lia.
Qed.

Lemma run_finished {R} n (p : Prog R) w r w' :
  nsteps cstep n (p, w) (Ret r, w') -> run n p w = Finished r w'.
Proof.
  intros Hn. rewrite <- (Nat.add_0_r n). rewrite (run_nsteps _ _ _ _ _ Hn). reflexivity.
Qed.

Lemma run_panicked {R} n (p : Prog R) w e w' :
  nsteps cstep n (p, w) (Throw e, w') -> run n p w = Panicked e w'.
Proof.
  intros Hn. rewrite <- (Nat.add_0_r n). rewrite (run_nsteps _ _ _ _ _ Hn). reflexivity.
Qed.

(** ** The receive loop *)

Section ReceiveFacts.

Variable json_Unmarshal : list byte -> StreamData -> StreamData * option error.

(** The loop condition fails: [done] is closed. *)
Lemma receive_cancelled w b R (K : unit -> Prog R) :
  done_closed (stream w) = true ->
  nsteps cstep 2 (Iter (receive_turn json_Unmarshal b) tt K, w) (K tt, w).
Proof.
  intros Hd.
  eapply step_l; [reflexivity|].
  eapply step_l; [simpl; rewrite Hd; reflexivity|].
  constructor.
Qed.

(** The body is at its end. *)
Lemma receive_eof w b R (K : unit -> Prog R) :
  done_closed (stream w) = false ->
  net w !! b = Some {| pending := []; closed := false |} ->
  nsteps cstep 3 (Iter (receive_turn json_Unmarshal b) tt K, w) (K tt, w).
Proof.
  intros Hd Hb.
  eapply step_l; [reflexivity|].
  eapply step_l; [simpl; rewrite Hd; reflexivity|].
  eapply step_l; [simpl; rewrite Hb; simpl; reflexivity|].
  constructor.
Qed.

(** A keep-alive: the line is consumed and the loop is at its head
    again. *)
Lemma receive_keepalive w b line rest R (K : unit -> Prog R) :
  done_closed (stream w) = false ->
  net w !! b = Some {| pending := line :: rest; closed := false |} ->
  (length line =? 0)%nat = true ->
  nsteps cstep 3 (Iter (receive_turn json_Unmarshal b) tt K, w)
    (Iter (receive_turn json_Unmarshal b) tt K,
     with_net (fun n => <[b := {| pending := rest; closed := false |}]> n) w).
Proof.
  intros Hd Hb Hlen.
  eapply step_l; [reflexivity|].
  eapply step_l; [simpl; rewrite Hd; reflexivity|].
  eapply step_l; [simpl; rewrite Hb; simpl; reflexivity|].
  simpl. rewrite Hlen. constructor.
Qed.

(** A payload line: what [getMessage] makes of it is sent, whether it
    decoded or not, and the loop is at its head again. *)
Lemma receive_payload w b line rest R (K : unit -> Prog R) :
  done_closed (stream w) = false ->
  receiving w = true ->
  ch_closed (Messages (stream w)) = false ->
  net w !! b = Some {| pending := line :: rest; closed := false |} ->
  (length line =? 0)%nat = false ->
  nsteps cstep 5 (Iter (receive_turn json_Unmarshal b) tt K, w)
    (Iter (receive_turn json_Unmarshal b) tt K,
     with_net (fun n => <[b := {| pending := rest; closed := false |}]> n)
       (with_stream (set_Messages
          {| ch_closed := false;
             received := received (Messages (stream w))
                           ++ [fst (getMessage json_Unmarshal line)] |}) w)).
Proof.
  intros Hd Hr Hc Hb Hlen.
  eapply step_l; [reflexivity|].
  eapply step_l; [simpl; rewrite Hd; reflexivity|].
  eapply step_l; [simpl; rewrite Hb; simpl; reflexivity|].
  simpl. rewrite Hlen.
  eapply step_l; [simpl; rewrite Hd; reflexivity|].
  simpl. destruct (getMessage json_Unmarshal line) as [msg err].
  eapply step_l; [simpl; rewrite Hc, Hr; reflexivity|].
  constructor.
Qed.

Lemma drained_nil b w :
  ch_closed (Messages (stream w)) = false ->
  net w !! b = Some {| pending := []; closed := false |} ->
  drained json_Unmarshal b [] w = w.
Proof.
  intros Hc Hb. destruct w as [[cl [cc rc] dn gr bd] nt rq sl rv]. simpl in *. subst cc.
  unfold drained, with_net, with_stream, set_Messages. simpl.
  rewrite app_nil_r. rewrite list_insert_id by exact Hb. reflexivity.
Qed.

Lemma drained_keepalive b line rest w :
  ch_closed (Messages (stream w)) = false ->
  (length line =? 0)%nat = true ->
  drained json_Unmarshal b rest
    (with_net (fun n => <[b := {| pending := rest; closed := false |}]> n) w)
  = drained json_Unmarshal b (line :: rest) w.
Proof.
  intros Hc Hlen. unfold drained, with_net, with_stream, set_Messages, emit. simpl.
  rewrite Hlen. simpl. rewrite list_insert_insert_eq. reflexivity.
Qed.

Lemma drained_payload b line rest w :
  (length line =? 0)%nat = false ->
  drained json_Unmarshal b rest
    (with_net (fun n => <[b := {| pending := rest; closed := false |}]> n)
       (with_stream (set_Messages
          {| ch_closed := false;
             received := received (Messages (stream w))
                           ++ [fst (getMessage json_Unmarshal line)] |}) w))
  = drained json_Unmarshal b (line :: rest) w.
Proof.
  intros Hlen. unfold drained, with_net, with_stream, set_Messages, emit. simpl.
  rewrite Hlen. simpl. rewrite list_insert_insert_eq. rewrite <- app_assoc. reflexivity.
Qed.

(** The loop of [receive] on a body with the given lines still to
    come, nobody cancelling and a consumer receiving: it reads the
    body to its end and leaves. *)
Lemma receive_loop lines : forall w b,
  done_closed (stream w) = false ->
  receiving w = true ->
  ch_closed (Messages (stream w)) = false ->
  net w !! b = Some {| pending := lines; closed := false |} ->
  exists n, forall R (K : unit -> Prog R),
    nsteps cstep n (Iter (receive_turn json_Unmarshal b) tt K, w) (K tt, drained json_Unmarshal b lines w).
Proof.
  induction lines as [|line rest IH]; intros w b Hd Hr Hc Hb.
  - exists 3%nat. intros R K. rewrite drained_nil by assumption.
    apply receive_eof; assumption.
  - pose proof (lookup_lt_Some _ _ _ Hb) as Hlt.
    destruct (length line =? 0)%nat eqn:Hlen.
    + destruct (IH (with_net (fun n => <[b := {| pending := rest; closed := false |}]> n) w) b)
        as [n Hn]; [exact Hd | exact Hr | exact Hc | |].
      { simpl. apply list_lookup_insert_eq. exact Hlt. }
      exists (3 + n)%nat. intros R K.
      eapply nsteps_trans; [apply (receive_keepalive w b line rest); assumption|].
      rewrite <- (drained_keepalive b line rest w) by assumption. apply Hn.
    + destruct (IH (with_net (fun n => <[b := {| pending := rest; closed := false |}]> n)
                     (with_stream (set_Messages
                        {| ch_closed := false;
                           received := received (Messages (stream w))
                             ++ [fst (getMessage json_Unmarshal line)] |}) w)) b)
        as [n Hn]; [exact Hd | exact Hr | reflexivity | |].
      { simpl. apply list_lookup_insert_eq. exact Hlt. }
      exists (5 + n)%nat. intros R K.
      eapply nsteps_trans; [apply (receive_payload w b line rest); assumption|].
      rewrite <- (drained_payload b line rest w) by assumption. apply Hn.
Qed.

End ReceiveFacts.

Section ReceiveClaims.

Variable json_Unmarshal : list byte -> StreamData -> StreamData * option error.

Lemma getMessage_error line e :
  snd (getMessage json_Unmarshal line) = Some e ->
  fst (getMessage json_Unmarshal line) = None.
Proof.
  unfold getMessage. destruct (json_Unmarshal line _) as [d [e'|]]; simpl; [reflexivity|discriminate].
Qed.

Lemma getMessage_ok line :
  snd (getMessage json_Unmarshal line) = None ->
  exists d, fst (getMessage json_Unmarshal line) = Some d.
Proof.
  unfold getMessage. destruct (json_Unmarshal line _) as [d [e'|]]; simpl; [discriminate|].
  intros _. exists d. reflexivity.
Qed.

(** C1, as the code has it: a non-empty line whose decode fails is not
    dropped.  The decode error is discarded and the nil message that
    [getMessage] returned with it is sent on the channel; after that
    the loop of [receive] is at its head again with the rest of the
    body still to read, so the line does not end the loop. *)
Theorem malformed_line_sends_nil_and_goes_on w b line rest e :
  done_closed (stream w) = false ->
  receiving w = true ->
  ch_closed (Messages (stream w)) = false ->
  net w !! b = Some {| pending := line :: rest; closed := false |} ->
  length line <> 0%nat ->
  snd (getMessage json_Unmarshal line) = Some e ->
  forall m,
    run (5 + m) (receive json_Unmarshal b) w
    = run m (receive json_Unmarshal b)
        (with_net (fun n => <[b := {| pending := rest; closed := false |}]> n)
           (with_stream (set_Messages
              {| ch_closed := false;
                 received := received (Messages (stream w)) ++ [None] |}) w)).
Proof.
  intros Hd Hr Hc Hb Hlen Herr m.
  rewrite <- (getMessage_error line e Herr).
  apply run_nsteps. unfold receive, newStreamResponseBodyReader.
  apply (receive_payload json_Unmarshal w b line rest); try assumption.
  apply Nat.eqb_neq. exact Hlen.
Qed.

(** C5: with nobody cancelling and a consumer receiving, [receive]
    reads the body to its end and returns, and what the consumer has
    then received is, in the order of the lines, nothing for an empty
    line and the one message of [getMessage] for a non-empty one; for a
    well-formed line that is its decoded message. *)
Theorem receive_emits_in_order w b lines :
  done_closed (stream w) = false ->
  receiving w = true ->
  ch_closed (Messages (stream w)) = false ->
  net w !! b = Some {| pending := lines; closed := false |} ->
  (exists n w',
      run n (receive json_Unmarshal b) w = Finished tt w'
      /\ received (Messages (stream w'))
         = received (Messages (stream w)) ++ flat_map (emit json_Unmarshal) lines)
  /\ (forall line, length line = 0%nat -> emit json_Unmarshal line = [])
  /\ (forall line, length line <> 0%nat -> well_formed json_Unmarshal line ->
        exists d, emit json_Unmarshal line = [Some d]
                  /\ getMessage json_Unmarshal line = (Some d, None)).
Proof.
  intros Hd Hr Hc Hb. split; [|split].
  - destruct (receive_loop json_Unmarshal lines w b Hd Hr Hc Hb) as [n Hn].
    exists n, (drained json_Unmarshal b lines w). split.
    + apply run_finished. apply Hn.
    + reflexivity.
  - intros line Hlen. unfold emit. rewrite Hlen. reflexivity.
  - intros line Hlen Hwf. unfold emit.
    apply Nat.eqb_neq in Hlen. rewrite Hlen.
    destruct (getMessage_ok line Hwf) as [d Hd'].
    exists d. rewrite Hd'. split; [reflexivity|].
    unfold well_formed in Hwf.
    destruct (getMessage json_Unmarshal line) as [m e]. simpl in *. congruence.
Qed.

(** C8: when [done] is closed at the moment the [select] of lines
    168-176 is taken, the loop is left at once: nothing is decoded,
    nothing is sent on [Messages], the world is as it was. *)
Theorem select_leaves_when_cancelled w data R (K : unit + unit -> Prog R) :
  done_closed (stream w) = true ->
  thread_step (bind (receive_select json_Unmarshal data) K) w = Next (K (inr tt)) w.
Proof.
  intros Hd. simpl. rewrite Hd. reflexivity.
Qed.

End ReceiveClaims.

(** C1 as stated fails: the malformed line [{] is not dropped, the
    consumer receives a nil message for it. *)
Lemma malformed_line_is_not_dropped :
  snd (getMessage example_Unmarshal bad_line) = Some "invalid character"
  /\ delivered (run 8 (receive example_Unmarshal 0%nat) (streaming [bad_line]))
     = Some [None].
Proof. split; reflexivity. Qed.

Lemma malformed_line_sends_nil_and_goes_on_witness :
  run (5 + 3) (receive example_Unmarshal 0%nat) (streaming [bad_line; tweet_line "7"])
  = run 3 (receive example_Unmarshal 0%nat)
      (with_net (fun n => <[0%nat := {| pending := [tweet_line "7"]; closed := false |}]> n)
         (with_stream (set_Messages {| ch_closed := false; received := [] ++ [None] |})
            (streaming [bad_line; tweet_line "7"]))).
Proof.
  apply (malformed_line_sends_nil_and_goes_on example_Unmarshal
           (streaming [bad_line; tweet_line "7"]) 0%nat bad_line [tweet_line "7"]
           "invalid character");
    first [reflexivity | (simpl; lia)].
Defined.

Lemma receive_emits_in_order_witness :
  exists n w',
    run n (receive example_Unmarshal 0%nat)
        (streaming [[]; tweet_line "1"; []; tweet_line "2"]) = Finished tt w'
    /\ received (Messages (stream w')) = [] ++ [tweet "1"; tweet "2"].
Proof.
  exact (proj1 (receive_emits_in_order example_Unmarshal
                  (streaming [[]; tweet_line "1"; []; tweet_line "2"]) 0%nat
                  [[]; tweet_line "1"; []; tweet_line "2"]
                  eq_refl eq_refl eq_refl eq_refl)).
Defined.

Lemma select_leaves_when_cancelled_witness :
  thread_step (bind (receive_select example_Unmarshal (tweet_line "1"))
                 (loop_next (receive_turn example_Unmarshal 0%nat) Ret))
              (cancelled [])
  = Next (Ret tt) (cancelled []).
Proof.
  exact (select_leaves_when_cancelled example_Unmarshal (cancelled []) (tweet_line "1") unit
           (loop_next (receive_turn example_Unmarshal 0%nat) Ret) eq_refl).
Defined.

(** ** Bodies *)

Lemma all_closed_close b w :
  all_closed w -> all_closed (with_net (alter close_conn b) w).
Proof.
  unfold all_closed. simpl. intros Hw. apply Forall_alter; [exact Hw|].
  intros c _ _. reflexivity.
Qed.

Lemma all_closed_close_new lines b w :
  b = length (net w) ->
  all_closed w ->
  all_closed (with_net (alter close_conn b) (responded lines w)).
Proof.
  unfold all_closed. simpl. intros -> Hw.
  rewrite alter_app_r_alt by lia. rewrite Nat.sub_diag. simpl.
  apply Forall_app. split; [exact Hw|]. constructor; [reflexivity|constructor].
Qed.

Lemma all_closed_close_drained json_Unmarshal lines b w :
  b = length (net w) ->
  all_closed w ->
  all_closed (with_net (alter close_conn b)
                (drained json_Unmarshal b lines (responded lines w))).
Proof.
  unfold all_closed. simpl. intros -> Hw.
  rewrite insert_app_r_alt by lia. rewrite Nat.sub_diag. simpl.
  rewrite alter_app_r_alt by lia. rewrite Nat.sub_diag. simpl.
  apply Forall_app. split; [exact Hw|]. constructor; [reflexivity|constructor].
Qed.

Lemma all_closed_close_all bs : forall w, all_closed w -> all_closed (close_all bs w).
Proof.
  induction bs as [|b rest IH]; intros w Hw; simpl; [exact Hw|].
  apply IH. apply all_closed_close. exact Hw.
Qed.

Lemma close_all_stream bs : forall w, stream (close_all bs w) = stream w.
Proof. induction bs as [|b rest IH]; intros w; simpl; [reflexivity|]. rewrite IH. reflexivity. Qed.

Lemma close_all_requests bs : forall w, requests (close_all bs w) = requests w.
Proof. induction bs as [|b rest IH]; intros w; simpl; [reflexivity|]. rewrite IH. reflexivity. Qed.

Lemma close_all_slept bs : forall w, slept (close_all bs w) = slept w.
Proof. induction bs as [|b rest IH]; intros w; simpl; [reflexivity|]. rewrite IH. reflexivity. Qed.

(** ** The retry controller *)

Section RetryFacts.

Variable json_Unmarshal : list byte -> StreamData -> StreamData * option error.
Context {B : Type} `{BackOff B}.
Variable req : option Request.

(** The deferred body closes run in the order of the stack. *)
Lemma run_deferred_bodies bs : forall rest w R (K : unit -> Prog R),
  nsteps cstep (length bs)
    (bind (run_deferred (map DeferBodyClose bs ++ rest)) K, w)
    (bind (run_deferred rest) K, close_all bs w).
Proof.
  induction bs as [|b bs IH]; intros rest w R K; simpl.
  - constructor.
  - eapply step_l; [reflexivity|]. apply IH.
Qed.

(** Leaving [retry]: everything deferred runs, then the function
    returns or the panic goes on. *)
Lemma retry_exit_steps bs (l : Locals B) ex w :
  deferred l = map DeferBodyClose bs ++ [DeferGroupDone; DeferCloseMessages] ->
  1 <= group (stream w) ->
  ch_closed (Messages (stream w)) = false ->
  nsteps cstep (length bs + 2)
    (retry_exit (l, ex), w)
    (match ex with Return => Ret tt | Panic e => Throw e end, wound_up bs w).
Proof.
  intros Hds Hg Hc. unfold retry_exit. simpl fst. simpl snd. rewrite Hds.
  eapply nsteps_trans; [apply run_deferred_bodies|].
  assert (Hg' : (group (stream (close_all bs w)) - 1 <? 0) = false).
  { rewrite close_all_stream. apply Z.ltb_ge. lia. }
  assert (Hc' : ch_closed (Messages (stream (close_all bs w))) = false).
  { rewrite close_all_stream. exact Hc. }
  eapply step_l; [simpl; rewrite Hg'; reflexivity|].
  eapply step_l; [simpl; rewrite Hc'; reflexivity|].
  simpl. unfold wound_up. destruct ex; constructor.
Qed.

(** Lines 145-150. *)
Lemma after_switch_steps resp (l : Locals B) :
  exists n, (0 < n)%nat /\
    forall w R (K : Locals B + Locals B * Exit -> Prog R),
      nsteps cstep n (bind (after_switch resp l) K, w)
                     (K (stop_or_continue l), after_switch_world (Body resp) (wait l) w).
Proof.
  unfold after_switch, stop_or_continue, after_switch_world.
  destruct (wait l =? backoff_Stop) eqn:Hw.
  - exists 1%nat. split; [lia|]. intros w R K.
    eapply step_l; [reflexivity|]. constructor.
  - exists 2%nat. split; [lia|]. intros w R K.
    eapply step_l; [reflexivity|].
    eapply step_l; [reflexivity|]. constructor.
Qed.

(** One request cycle of [retry] does what the table says. *)
Lemma retry_turn_steps (l : Locals B) w :
  done_closed (stream w) = false ->
  receiving w = true ->
  ch_closed (Messages (stream w)) = false ->
  exists n, (0 < n)%nat /\ forall R (K : Locals B * Exit -> Prog R),
    nsteps cstep n
      (Iter (retry_turn json_Unmarshal req) l K, w)
      (loop_next (retry_turn json_Unmarshal req) K
         (transition l (length (net w)) (client (stream w) (requests w))),
       turn_world json_Unmarshal l w).
Proof.
  intros Hd Hr Hc. unfold transition, turn_world.
  destruct (client (stream w) (requests w)) as [e|status lines] eqn:Hcl.
  - exists 3%nat. split; [lia|]. intros R K.
    eapply step_l; [reflexivity|].
    eapply step_l; [simpl; rewrite Hd; reflexivity|].
    eapply step_l; [simpl; rewrite Hcl; reflexivity|].
    constructor.
  - set (b := length (net w)). set (w1 := responded lines w).
    set (resp := {| StatusCode := status; Body := b |}).
    destruct (status =? 200) eqn:H200; [|destruct (status =? 503) eqn:H503;
      [|destruct ((status =? 420) || (status =? 429)) eqn:H42x]].
    + destruct (receive_loop json_Unmarshal lines w1 b) as [nr Hnr];
        [exact Hd | exact Hr | exact Hc | |].
      { unfold w1, responded, b. simpl. apply list_lookup_middle. reflexivity. }
      destruct (after_switch_steps resp
                  {| wait := wait l; expBackOff := Reset (expBackOff l);
                     aggExpBackOff := Reset (aggExpBackOff l);
                     deferred := DeferBodyClose b :: deferred l |})
        as [na [Hpos Hna]].
      exists (4 + (nr + na))%nat. split; [lia|]. intros R K.
      eapply step_l; [reflexivity|].
      eapply step_l; [simpl; rewrite Hd; reflexivity|].
      eapply step_l; [simpl; rewrite Hcl; reflexivity|].
      eapply step_l; [reflexivity|].
      unfold retry_switch. simpl. rewrite H200. simpl.
      eapply nsteps_trans; [apply Hnr|].
      apply Hna.
    + destruct (NextBackOff (expBackOff l)) as [d e'] eqn:Hnb. simpl fst. simpl snd.
      destruct (after_switch_steps resp
                  {| wait := d; expBackOff := e';
                     aggExpBackOff := aggExpBackOff l;
                     deferred := DeferBodyClose b :: deferred l |})
        as [na [Hpos Hna]].
      exists (4 + na)%nat. split; [lia|]. intros R K.
      eapply step_l; [reflexivity|].
      eapply step_l; [simpl; rewrite Hd; reflexivity|].
      eapply step_l; [simpl; rewrite Hcl; reflexivity|].
      eapply step_l; [reflexivity|].
      unfold retry_switch. simpl. rewrite H200, H503, Hnb.
      apply Hna.
    + destruct (NextBackOff (aggExpBackOff l)) as [d e'] eqn:Hnb. simpl fst. simpl snd.
      destruct (after_switch_steps resp
                  {| wait := d; expBackOff := expBackOff l;
                     aggExpBackOff := e';
                     deferred := DeferBodyClose b :: deferred l |})
        as [na [Hpos Hna]].
      exists (4 + na)%nat. split; [lia|]. intros R K.
      eapply step_l; [reflexivity|].
      eapply step_l; [simpl; rewrite Hd; reflexivity|].
      eapply step_l; [simpl; rewrite Hcl; reflexivity|].
      eapply step_l; [reflexivity|].
      unfold retry_switch. simpl. rewrite H200, H503, H42x, Hnb.
      apply Hna.
    + exists 5%nat. split; [lia|]. intros R K.
      eapply step_l; [reflexivity|].
      eapply step_l; [simpl; rewrite Hd; reflexivity|].
      eapply step_l; [simpl; rewrite Hcl; reflexivity|].
      eapply step_l; [reflexivity|].
      unfold retry_switch. simpl. rewrite H200, H503, H42x.
      eapply step_l; [reflexivity|].
      constructor.
Qed.

End RetryFacts.

Section TurnWorldFacts.

Variable json_Unmarshal : list byte -> StreamData -> StreamData * option error.
Context {B : Type} `{BackOff B}.

Lemma after_switch_world_stream b d w :
  stream (after_switch_world b d w) = stream w.
Proof. unfold after_switch_world. destruct (d =? backoff_Stop); reflexivity. Qed.

Lemma after_switch_world_requests b d w :
  requests (after_switch_world b d w) = requests w.
Proof. unfold after_switch_world. destruct (d =? backoff_Stop); reflexivity. Qed.

Lemma after_switch_world_receiving b d w :
  receiving (after_switch_world b d w) = receiving w.
Proof. unfold after_switch_world. destruct (d =? backoff_Stop); reflexivity. Qed.

Lemma after_switch_world_net b d w :
  net (after_switch_world b d w) = alter close_conn b (net w).
Proof. unfold after_switch_world. destruct (d =? backoff_Stop); reflexivity. Qed.

Lemma after_switch_world_slept b d w :
  slept (after_switch_world b d w)
  = slept w ++ (if d =? backoff_Stop then [] else [d]).
Proof.
  unfold after_switch_world. destruct (d =? backoff_Stop); simpl;
    [rewrite app_nil_r|]; reflexivity.
Qed.

Lemma turn_world_requests (l : Locals B) w :
  requests (turn_world json_Unmarshal l w) = S (requests w).
Proof.
  unfold turn_world. destruct (client (stream w) (requests w)) as [e|status lines];
    [reflexivity|].
  destruct (status =? 200); [|destruct (status =? 503);
    [|destruct ((status =? 420) || (status =? 429))]];
    rewrite ?after_switch_world_requests; reflexivity.
Qed.

Lemma turn_world_receiving (l : Locals B) w :
  receiving (turn_world json_Unmarshal l w) = receiving w.
Proof.
  unfold turn_world. destruct (client (stream w) (requests w)) as [e|status lines];
    [reflexivity|].
  destruct (status =? 200); [|destruct (status =? 503);
    [|destruct ((status =? 420) || (status =? 429))]];
    rewrite ?after_switch_world_receiving; reflexivity.
Qed.

Lemma turn_world_stream (l : Locals B) w :
  ch_closed (Messages (stream w)) = false ->
  done_closed (stream (turn_world json_Unmarshal l w)) = done_closed (stream w)
  /\ group (stream (turn_world json_Unmarshal l w)) = group (stream w)
  /\ client (stream (turn_world json_Unmarshal l w)) = client (stream w)
  /\ ch_closed (Messages (stream (turn_world json_Unmarshal l w))) = false.
Proof.
  intros Hc. unfold turn_world.
  destruct (client (stream w) (requests w)) as [e|status lines];
    [simpl; auto|].
  destruct (status =? 200); [|destruct (status =? 503);
    [|destruct ((status =? 420) || (status =? 429))]];
    rewrite ?after_switch_world_stream; simpl; auto.
Qed.

Lemma turn_world_all_closed (l : Locals B) w :
  all_closed w -> all_closed (turn_world json_Unmarshal l w).
Proof.
  intros Hw. unfold turn_world.
  destruct (client (stream w) (requests w)) as [e|status lines]; [exact Hw|].
  destruct (status =? 200); [|destruct (status =? 503);
    [|destruct ((status =? 420) || (status =? 429))]].
  - unfold all_closed. rewrite after_switch_world_net.
    apply (all_closed_close_drained json_Unmarshal lines); [reflexivity|exact Hw].
  - unfold all_closed. rewrite after_switch_world_net.
    apply (all_closed_close_new lines); [reflexivity|exact Hw].
  - unfold all_closed. rewrite after_switch_world_net.
    apply (all_closed_close_new lines); [reflexivity|exact Hw].
  - apply (all_closed_close_new lines); [reflexivity|exact Hw].
Qed.

Lemma stop_or_continue_inl (l l' : Locals B) :
  stop_or_continue l = inl l' -> l' = l /\ wait l <> backoff_Stop.
Proof.
  unfold stop_or_continue. destruct (wait l =? backoff_Stop) eqn:Hw; [discriminate|].
  intros [= <-]. split; [reflexivity|]. apply Z.eqb_neq. exact Hw.
Qed.

Lemma stop_or_continue_inr (l l' : Locals B) ex :
  stop_or_continue l = inr (l', ex) -> l' = l /\ ex = Return /\ wait l = backoff_Stop.
Proof.
  unfold stop_or_continue. destruct (wait l =? backoff_Stop) eqn:Hw; [|discriminate].
  intros [= <- <-]. repeat split. apply Z.eqb_eq. exact Hw.
Qed.

(** Whatever a cycle makes of the locals, the deferred calls are those
    of before, with at most the close of the new body on top. *)
Lemma transition_deferred (l : Locals B) b answer :
  match transition l b answer with
  | inl l' => deferred l' = DeferBodyClose b :: deferred l /\ wait l' <> backoff_Stop
  | inr (l', _) => deferred l' = deferred l \/ deferred l' = DeferBodyClose b :: deferred l
  end.
Proof.
  unfold transition. destruct answer as [e|status lines]; [left; reflexivity|].
  destruct (status =? 200); [|destruct (status =? 503);
    [|destruct ((status =? 420) || (status =? 429))]];
    try (right; reflexivity);
    match goal with
    | |- context [stop_or_continue ?x] =>
        destruct (stop_or_continue x) as [l'|[l' ex]] eqn:Hs;
        [apply stop_or_continue_inl in Hs as [-> Hw]; split; [reflexivity|exact Hw]
        |apply stop_or_continue_inr in Hs as (-> & _ & _); right; reflexivity]
    end.
Qed.

Lemma at_loop_head_next (l l' : Locals B) w :
  at_loop_head l w ->
  transition l (length (net w)) (client (stream w) (requests w)) = inl l' ->
  at_loop_head l' (turn_world json_Unmarshal l w).
Proof.
  intros ([bs Hbs] & Hw & Hg & Hc & Hall) Ht.
  pose proof (transition_deferred l (length (net w)) (client (stream w) (requests w))) as Hd.
  rewrite Ht in Hd. destruct Hd as [Hd Hw'].
  destruct (turn_world_stream l w Hc) as (_ & Hg' & _ & Hc').
  split; [|split; [|split; [|split]]].
  - exists (length (net w) :: bs). rewrite Hd, Hbs. reflexivity.
  - exact Hw'.
  - rewrite Hg'. exact Hg.
  - exact Hc'.
  - apply turn_world_all_closed. exact Hall.
Qed.

Lemma at_loop_head_exit (l l' : Locals B) ex w :
  at_loop_head l w ->
  transition l (length (net w)) (client (stream w) (requests w)) = inr (l', ex) ->
  exists bs,
    deferred l' = map DeferBodyClose bs ++ [DeferGroupDone; DeferCloseMessages]
    /\ 1 <= group (stream (turn_world json_Unmarshal l w))
    /\ ch_closed (Messages (stream (turn_world json_Unmarshal l w))) = false
    /\ all_closed (turn_world json_Unmarshal l w).
Proof.
  intros ([bs Hbs] & Hw & Hg & Hc & Hall) Ht.
  pose proof (transition_deferred l (length (net w)) (client (stream w) (requests w))) as Hd.
  rewrite Ht in Hd.
  destruct (turn_world_stream l w Hc) as (_ & Hg' & _ & Hc').
  assert (Hrest : 1 <= group (stream (turn_world json_Unmarshal l w))
                  /\ ch_closed (Messages (stream (turn_world json_Unmarshal l w))) = false
                  /\ all_closed (turn_world json_Unmarshal l w)).
  { split; [rewrite Hg'; exact Hg|]. split; [exact Hc'|].
    apply turn_world_all_closed. exact Hall. }
  destruct Hd as [Hd|Hd].
  - exists bs. split; [rewrite Hd; exact Hbs|exact Hrest].
  - exists (length (net w) :: bs). split; [rewrite Hd, Hbs; reflexivity|exact Hrest].
Qed.

Lemma wound_up_facts bs w :
  requests (wound_up bs w) = requests w
  /\ slept (wound_up bs w) = slept w
  /\ ch_closed (Messages (stream (wound_up bs w))) = true
  /\ received (Messages (stream (wound_up bs w))) = received (Messages (stream w))
  /\ group (stream (wound_up bs w)) = group (stream w) - 1
  /\ (all_closed w -> all_closed (wound_up bs w)).
Proof.
  unfold wound_up. simpl.
  rewrite close_all_requests, close_all_slept, !close_all_stream.
  repeat split. intros Hw. unfold all_closed. simpl.
  apply (all_closed_close_all bs w Hw).
Qed.

End TurnWorldFacts.

Section RetryClaims.

Variable json_Unmarshal : list byte -> StreamData -> StreamData * option error.
Context {B : Type} `{BackOff B}.
Variable req : option Request.

Lemma retry_from_loop (l : Locals B) :
  retry_from json_Unmarshal req l
  = Iter (retry_turn json_Unmarshal req) l retry_exit.
Proof. reflexivity. Qed.

Lemma retry_goes_round (l l' : Locals B) w :
  done_closed (stream w) = false ->
  receiving w = true ->
  ch_closed (Messages (stream w)) = false ->
  transition l (length (net w)) (client (stream w) (requests w)) = inl l' ->
  goes_round json_Unmarshal req l w l' (turn_world json_Unmarshal l w).
Proof.
  intros Hd Hr Hc Ht.
  destruct (retry_turn_steps json_Unmarshal req l w Hd Hr Hc) as [n [Hpos Hn]].
  exists n. split; [exact Hpos|]. intros m. apply run_nsteps.
  rewrite !retry_from_loop. specialize (Hn unit retry_exit). rewrite Ht in Hn. exact Hn.
Qed.

Lemma retry_leaves (l l' : Locals B) ex w :
  at_loop_head l w ->
  done_closed (stream w) = false ->
  receiving w = true ->
  transition l (length (net w)) (client (stream w) (requests w)) = inr (l', ex) ->
  exists n bs, (0 < n)%nat /\
    nsteps cstep n
      (retry_from json_Unmarshal req l, w)
      (match ex with Return => Ret tt | Panic e => Throw e end,
       wound_up bs (turn_world json_Unmarshal l w)).
Proof.
  intros Hinv Hd Hr Ht.
  destruct (at_loop_head_exit json_Unmarshal l l' ex w Hinv Ht) as (bs & Hbs & Hg & Hc & _).
  destruct Hinv as (_ & _ & _ & Hc0 & _).
  destruct (retry_turn_steps json_Unmarshal req l w Hd Hr Hc0) as [n [Hpos Hn]].
  exists (n + (length bs + 2))%nat, bs. split; [lia|].
  rewrite retry_from_loop. eapply nsteps_trans.
  - specialize (Hn unit retry_exit). rewrite Ht in Hn. exact Hn.
  - simpl. apply retry_exit_steps; assumption.
Qed.

Lemma retry_returns (l l' : Locals B) w :
  at_loop_head l w ->
  done_closed (stream w) = false ->
  receiving w = true ->
  transition l (length (net w)) (client (stream w) (requests w)) = inr (l', Return) ->
  slept (turn_world json_Unmarshal l w) = slept w ->
  returns_after_one_request json_Unmarshal req l w.
Proof.
  intros Hinv Hd Hr Ht Hs.
  destruct (retry_leaves l l' Return w Hinv Hd Hr Ht) as (n & bs & _ & Hn).
  exists n, (wound_up bs (turn_world json_Unmarshal l w)).
  destruct (wound_up_facts bs (turn_world json_Unmarshal l w)) as (Hq & Hsl & _).
  split; [apply run_finished; exact Hn|]. split.
  - rewrite Hq. apply turn_world_requests.
  - rewrite Hsl. exact Hs.
Qed.

(** C3, as the code has it: when [client.Do] fails, [retry] stops at
    once and issues no further request; what was deferred runs, so the
    wait group is released and [Messages] is closed with nothing more
    sent on it; and the error leaves the goroutine as a panic. *)
Theorem transport_error_panics (l : Locals B) w e :
  at_loop_head l w ->
  done_closed (stream w) = false ->
  client (stream w) (requests w) = TransportError e ->
  exists n w',
    run n (retry_from json_Unmarshal req l) w = Panicked e w'
    /\ requests w' = S (requests w)
    /\ slept w' = slept w
    /\ ch_closed (Messages (stream w')) = true
    /\ received (Messages (stream w')) = received (Messages (stream w))
    /\ group (stream w') = group (stream w) - 1.
Proof.
  intros ([bs Hbs] & _ & Hg & Hc & _) Hd Hcl.
  exists (3 + (length bs + 2))%nat, (wound_up bs (issued w)).
  destruct (wound_up_facts bs (issued w)) as (Hq & Hsl & Hcc & Hrc & Hgr & _).
  split; [|repeat split; assumption].
  apply run_panicked. rewrite retry_from_loop.
  eapply step_l; [reflexivity|].
  eapply step_l; [simpl; rewrite Hd; reflexivity|].
  eapply step_l; [simpl; rewrite Hcl; reflexivity|].
  simpl. apply (retry_exit_steps bs l (Panic e) (issued w)); assumption.
Qed.

(** C6: in a request cycle, a 503 advances the Standard policy and a
    420 or 429 the Aggressive one, the other policy staying as it is;
    when the policy advanced yields [backoff.Stop], [retry] returns
    after this one request, and otherwise it sleeps the wait and comes
    to the head of its loop again; on any other status than these and
    200, [retry] returns after this one request, without a panic. *)
Theorem retry_backs_off_by_status (l : Locals B) w status lines :
  at_loop_head l w ->
  done_closed (stream w) = false ->
  receiving w = true ->
  client (stream w) (requests w) = Reply status lines ->
  (status = 503 ->
     let d := fst (NextBackOff (expBackOff l)) in
     if d =? backoff_Stop then returns_after_one_request json_Unmarshal req l w
     else exists l' w',
         goes_round json_Unmarshal req l w l' w'
         /\ wait l' = d
         /\ expBackOff l' = snd (NextBackOff (expBackOff l))
         /\ aggExpBackOff l' = aggExpBackOff l
         /\ requests w' = S (requests w)
         /\ slept w' = slept w ++ [d])
  /\ (status = 420 \/ status = 429 ->
     let d := fst (NextBackOff (aggExpBackOff l)) in
     if d =? backoff_Stop then returns_after_one_request json_Unmarshal req l w
     else exists l' w',
         goes_round json_Unmarshal req l w l' w'
         /\ wait l' = d
         /\ expBackOff l' = expBackOff l
         /\ aggExpBackOff l' = snd (NextBackOff (aggExpBackOff l))
         /\ requests w' = S (requests w)
         /\ slept w' = slept w ++ [d])
  /\ (status <> 200 -> status <> 503 -> status <> 420 -> status <> 429 ->
     returns_after_one_request json_Unmarshal req l w).
Proof.
  intros Hinv Hd Hr Hcl.
  pose proof Hinv as (_ & _ & _ & Hc & _).
  split; [|split].
  - intros ->. simpl.
    destruct (fst (NextBackOff (expBackOff l)) =? backoff_Stop) eqn:Hstop.
    + eapply retry_returns; try eassumption.
      * unfold transition. rewrite Hcl. simpl. unfold stop_or_continue. simpl.
        rewrite Hstop. reflexivity.
      * unfold turn_world. rewrite Hcl. simpl.
        rewrite after_switch_world_slept, Hstop. simpl. apply app_nil_r.
    + eexists _, (turn_world json_Unmarshal l w). split.
      * apply retry_goes_round; try assumption.
        unfold transition. rewrite Hcl. simpl. unfold stop_or_continue. simpl.
        rewrite Hstop. reflexivity.
      * simpl. repeat split; try reflexivity.
        -- apply turn_world_requests.
        -- unfold turn_world. rewrite Hcl. simpl.
           rewrite after_switch_world_slept, Hstop. reflexivity.
  - intros Hst. simpl.
    assert (H200 : (status =? 200) = false) by (apply Z.eqb_neq; lia).
    assert (H503 : (status =? 503) = false) by (apply Z.eqb_neq; lia).
    assert (H42x : (status =? 420) || (status =? 429) = true).
    { destruct Hst as [-> | ->]; reflexivity. }
    destruct (fst (NextBackOff (aggExpBackOff l)) =? backoff_Stop) eqn:Hstop.
    + eapply retry_returns; try eassumption.
      * unfold transition. rewrite Hcl, H200, H503, H42x. unfold stop_or_continue. simpl.
        rewrite Hstop. reflexivity.
      * unfold turn_world. rewrite Hcl, H200, H503, H42x. simpl.
        rewrite after_switch_world_slept, Hstop. simpl. apply app_nil_r.
    + eexists _, (turn_world json_Unmarshal l w). split.
      * apply retry_goes_round; try assumption.
        unfold transition. rewrite Hcl, H200, H503, H42x. unfold stop_or_continue. simpl.
        rewrite Hstop. reflexivity.
      * simpl. repeat split; try reflexivity.
        -- apply turn_world_requests.
        -- unfold turn_world. rewrite Hcl, H200, H503, H42x. simpl.
           rewrite after_switch_world_slept, Hstop. reflexivity.
  - intros N200 N503 N420 N429.
    assert (H200 : (status =? 200) = false) by (apply Z.eqb_neq; lia).
    assert (H503 : (status =? 503) = false) by (apply Z.eqb_neq; lia).
    assert (H42x : (status =? 420) || (status =? 429) = false).
    { apply orb_false_intro; apply Z.eqb_neq; lia. }
    eapply retry_returns; try eassumption.
    + unfold transition. rewrite Hcl, H200, H503, H42x. reflexivity.
    + unfold turn_world. rewrite Hcl, H200, H503, H42x. reflexivity.
Qed.

(** C7: a request cycle that gets a 200 runs [receive] on the body
    and, once that is over, resets both policies; [retry] is then at
    the head of its loop again with both policies reset, so a wait
    computed in a later cycle is computed from a reset policy. *)
Theorem ok_cycle_resets_both_policies (l : Locals B) w lines :
  at_loop_head l w ->
  done_closed (stream w) = false ->
  receiving w = true ->
  client (stream w) (requests w) = Reply 200 lines ->
  exists l' w',
    goes_round json_Unmarshal req l w l' w'
    /\ expBackOff l' = Reset (expBackOff l)
    /\ aggExpBackOff l' = Reset (aggExpBackOff l)
    /\ wait l' = wait l
    /\ received (Messages (stream w'))
       = received (Messages (stream w)) ++ flat_map (emit json_Unmarshal) lines
    /\ requests w' = S (requests w).
Proof.
  intros Hinv Hd Hr Hcl.
  pose proof Hinv as (_ & Hw & _ & Hc & _).
  apply Z.eqb_neq in Hw.
  eexists _, (turn_world json_Unmarshal l w). split.
  - apply retry_goes_round; try assumption.
    unfold transition. rewrite Hcl. simpl. unfold stop_or_continue. simpl.
    rewrite Hw. reflexivity.
  - simpl. repeat split; try reflexivity.
    + unfold turn_world. rewrite Hcl. simpl.
      rewrite after_switch_world_stream. reflexivity.
    + apply turn_world_requests.
Qed.

Lemma turn_world_net_length (l : Locals B) w status lines :
  client (stream w) (requests w) = Reply status lines ->
  length (net (turn_world json_Unmarshal l w)) = S (length (net w)).
Proof.
  intros Hcl. unfold turn_world. rewrite Hcl.
  destruct (status =? 200); [|destruct (status =? 503);
    [|destruct ((status =? 420) || (status =? 429))]];
    rewrite ?after_switch_world_net; simpl;
    rewrite ?length_alter, ?length_insert, length_app; simpl; lia.
Qed.

(** Whenever a run of [retry] from the head of its loop is over, no
    body is open. *)
Lemma retry_leaves_no_body_open fuel : forall (l : Locals B) w w',
  at_loop_head l w ->
  done_closed (stream w) = false ->
  receiving w = true ->
  (run fuel (retry_from json_Unmarshal req l) w = Finished tt w'
   \/ exists e, run fuel (retry_from json_Unmarshal req l) w = Panicked e w') ->
  all_closed w'.
Proof.
  induction fuel as [fuel IH] using lt_wf_ind. intros l w w' Hinv Hd Hr Hrun.
  pose proof Hinv as (_ & _ & _ & Hc & _).
  destruct (retry_turn_steps json_Unmarshal req l w Hd Hr Hc) as [n [Hpos Hn]].
  specialize (Hn unit retry_exit). rewrite retry_from_loop in Hrun.
  destruct (Nat.lt_ge_cases fuel n) as [Hlt|Hge].
  { rewrite (run_short _ _ _ _ _ Hn fuel Hlt) in Hrun.
    destruct Hrun as [Hrun|[e Hrun]]; discriminate. }
  replace fuel with (n + (fuel - n))%nat in Hrun by lia.
  rewrite (run_nsteps _ _ _ _ _ Hn) in Hrun.
  destruct (transition l (length (net w)) (client (stream w) (requests w)))
    as [l'|[l' ex]] eqn:Ht; simpl in Hrun.
  - apply (IH (fuel - n)%nat) with (l := l') (w := turn_world json_Unmarshal l w).
    + lia.
    + apply at_loop_head_next; assumption.
    + destruct (turn_world_stream json_Unmarshal l w Hc) as (-> & _). exact Hd.
    + rewrite turn_world_receiving. exact Hr.
    + exact Hrun.
  - destruct (at_loop_head_exit json_Unmarshal l l' ex w Hinv Ht)
      as (bs & Hbs & Hg & Hc' & Hall).
    pose proof (retry_exit_steps bs l' ex (turn_world json_Unmarshal l w) Hbs Hg Hc') as Hx.
    destruct (Nat.lt_ge_cases (fuel - n) (length bs + 2)) as [Hlt'|Hge'].
    { rewrite (run_short _ _ _ _ _ Hx _ Hlt') in Hrun.
      destruct Hrun as [Hrun|[e Hrun]]; discriminate. }
    replace (fuel - n)%nat with ((length bs + 2) + (fuel - n - (length bs + 2)))%nat
      in Hrun by lia.
    rewrite (run_nsteps _ _ _ _ _ Hx) in Hrun.
    destruct (wound_up_facts bs (turn_world json_Unmarshal l w)) as (_ & _ & _ & _ & _ & Hcl).
    assert (Hw' : w' = wound_up bs (turn_world json_Unmarshal l w)).
    { destruct ex; destruct (fuel - n - (length bs + 2))%nat; simpl in Hrun;
        destruct Hrun as [Hrun|[e' Hrun]]; congruence. }
    rewrite Hw'. apply Hcl. exact Hall.
Qed.

(** With nobody cancelling and a consumer receiving, a request cycle
    does end; if it got a response it ends with the body of that
    response closed, whatever the status, and with no other body open
    either; and whenever [retry] is over, by return or by panic, no
    body is open. *)
Theorem every_cycle_closes_its_body (l : Locals B) w :
  at_loop_head l w ->
  done_closed (stream w) = false ->
  receiving w = true ->
  (exists n, (0 < n)%nat
     /\ (forall R (K : Locals B * Exit -> Prog R),
           nsteps cstep n
             (Iter (retry_turn json_Unmarshal req) l K, w)
             (loop_next (retry_turn json_Unmarshal req) K
                (transition l (length (net w)) (client (stream w) (requests w))),
              turn_world json_Unmarshal l w))
     /\ all_closed (turn_world json_Unmarshal l w)
     /\ (forall status lines,
           client (stream w) (requests w) = Reply status lines ->
           is_closed (turn_world json_Unmarshal l w) (length (net w)) = true))
  /\ (forall fuel w',
        run fuel (retry_from json_Unmarshal req l) w = Finished tt w'
        \/ (exists e, run fuel (retry_from json_Unmarshal req l) w = Panicked e w') ->
        all_closed w').
Proof.
  intros Hinv Hd Hr. pose proof Hinv as (_ & _ & _ & Hc & Hall). split.
  - destruct (retry_turn_steps json_Unmarshal req l w Hd Hr Hc) as [n [Hpos Hn]].
    exists n. split; [exact Hpos|]. split; [exact Hn|].
    pose proof (turn_world_all_closed json_Unmarshal l w Hall) as Hall'.
    split; [exact Hall'|]. intros status lines Hcl.
    pose proof (turn_world_net_length l w status lines Hcl) as Hlen.
    unfold is_closed.
    match goal with
    | |- match ?x with _ => _ end = _ => destruct x as [c|] eqn:Hlk
    end.
    + unfold all_closed in Hall'. rewrite Forall_lookup in Hall'. exact (Hall' _ _ Hlk).
    + apply lookup_ge_None in Hlk. lia.
  - intros fuel w' Hrun. exact (retry_leaves_no_body_open fuel l w w' Hinv Hd Hr Hrun).
Qed.

End RetryClaims.

(** ** The examples *)

(** The scenarios of the specification (section 8): two tweets between
    keep-alives over a 200, then the connection is refused; and three
    429 in a row against an Aggressive policy of two and four seconds. *)
Example two_tweets_scenario :
  delivered (run 20 (background (example_session
                       [Reply 200 [[]; tweet_line "1"; []; tweet_line "2"]]))
               (shared (example_session
                       [Reply 200 [[]; tweet_line "1"; []; tweet_line "2"]])))
  = None
  /\ delivered (run 40 (background (example_session
                          [Reply 200 [[]; tweet_line "1"; []; tweet_line "2"]]))
                  (shared (example_session
                          [Reply 200 [[]; tweet_line "1"; []; tweet_line "2"]])))
     = Some [tweet "1"; tweet "2"].
Proof. split; vm_compute; reflexivity. Qed.

Example rate_limited_scenario :
  report (run 40 (background (example_session [Reply 429 []; Reply 429 []; Reply 429 []]))
            (shared (example_session [Reply 429 []; Reply 429 []; Reply 429 []])))
  = Some (None, 3%nat, [2 * second; 4 * second]).
Proof. vm_compute. reflexivity. Qed.

(** C3 as stated fails: [Connect] hands the caller a session and a nil
    error, and the transport error then ends the background goroutine in
    a panic that nothing recovers. *)
Lemma transport_error_is_an_unrecovered_panic :
  Connect example_Unmarshal example_NewRequest example_Values example_Encode
    (scripted [second / 2]) (scripted [2 * second; 4 * second])
    (NewStreamService (answering []) "t") None
  = Value (Some (example_session []), None)
  /\ (exists w', run 5 (background (example_session [])) (shared (example_session []))
                 = Panicked "connection refused" w'
                 /\ received (Messages (stream w')) = [])
  /\ (exists m, schedule [Task; Task; Task; Task; Task] (start (example_session []) (Ret tt))
                = Some m
                /\ crashed (task m) = true
                /\ machine_step Caller
                     {| world := world m; task := task m; caller := Stop |} = None).
Proof.
  split; [reflexivity|]. split.
  - eexists. split; reflexivity.
  - eexists. split; [reflexivity|]. split; reflexivity.
Qed.

Lemma transport_error_panics_witness :
  exists n w',
    run n (retry_from example_Unmarshal example_request first_locals)
        (shared (example_session [])) = Panicked "connection refused" w'
    /\ requests w' = 1%nat
    /\ slept w' = []
    /\ ch_closed (Messages (stream w')) = true
    /\ received (Messages (stream w')) = []
    /\ group (stream w') = 1 - 1.
Proof.
  apply (transport_error_panics example_Unmarshal example_request first_locals
           (shared (example_session [])) "connection refused").
  - repeat split; [exists []; reflexivity | discriminate | simpl; lia | constructor].
  - reflexivity.
  - reflexivity.
Defined.

Lemma retry_backs_off_by_status_witness :
  exists l' w',
    goes_round example_Unmarshal example_request first_locals
      (shared (example_session [Reply 429 []])) l' w'
    /\ wait l' = 2 * second
    /\ expBackOff l' = scripted [second / 2]
    /\ aggExpBackOff l' = {| script := [2 * second; 4 * second]; remaining := [4 * second] |}
    /\ requests w' = 1%nat
    /\ slept w' = [2 * second].
Proof.
  refine (proj1 (proj2 (retry_backs_off_by_status example_Unmarshal example_request
                          first_locals (shared (example_session [Reply 429 []])) 429 []
                          _ eq_refl eq_refl eq_refl))
                (or_intror eq_refl)).
  repeat split; [exists []; reflexivity | discriminate | simpl; lia | constructor].
Defined.

Lemma ok_cycle_resets_both_policies_witness :
  exists l' w',
    goes_round example_Unmarshal example_request
      {| wait := 2 * second;
         expBackOff := {| script := [second / 2]; remaining := [] |};
         aggExpBackOff := {| script := [2 * second; 4 * second]; remaining := [4 * second] |};
         deferred := [DeferGroupDone; DeferCloseMessages] |}
      (shared (example_session [Reply 200 [[]; tweet_line "1"]])) l' w'
    /\ expBackOff l' = scripted [second / 2]
    /\ aggExpBackOff l' = scripted [2 * second; 4 * second]
    /\ wait l' = 2 * second
    /\ received (Messages (stream w')) = [] ++ [tweet "1"]
    /\ requests w' = 1%nat.
Proof.
  refine (ok_cycle_resets_both_policies example_Unmarshal example_request _
            (shared (example_session [Reply 200 [[]; tweet_line "1"]]))
            [[]; tweet_line "1"] _ eq_refl eq_refl eq_refl).
  repeat split; [exists []; reflexivity | discriminate | simpl; lia | constructor].
Defined.

Lemma every_cycle_closes_its_body_witness :
  is_closed (turn_world example_Unmarshal first_locals
               (shared (example_session [Reply 200 [tweet_line "1"]]))) 0%nat = true
  /\ match run 40 (retry_from example_Unmarshal example_request first_locals)
               (shared (example_session
                          [Reply 200 [tweet_line "1"]; Reply 503 []; Reply 404 []])) with
     | Finished _ w' => all_closed w'
     | _ => False
     end.
Proof.
  split.
  - destruct (every_cycle_closes_its_body example_Unmarshal example_request first_locals
                (shared (example_session [Reply 200 [tweet_line "1"]])))
      as [[n (_ & _ & _ & Hb)] _].
    + repeat split; [exists []; reflexivity | discriminate | simpl; lia | constructor].
    + reflexivity.
    + reflexivity.
    + exact (Hb 200 [tweet_line "1"] eq_refl).
  - destruct (every_cycle_closes_its_body example_Unmarshal example_request first_locals
                (shared (example_session
                           [Reply 200 [tweet_line "1"]; Reply 503 []; Reply 404 []])))
      as [_ Hall].
    + repeat split; [exists []; reflexivity | discriminate | simpl; lia | constructor].
    + reflexivity.
    + reflexivity.
    + destruct (run 40 _ _) as [[] w'|e w'|w'|] eqn:Hrun;
        try (vm_compute in Hrun; discriminate).
      apply (Hall 40%nat w'). left. exact Hrun.
Defined.

(** ** Two goroutines *)

Lemma schedule_rtc sched : forall m m',
  schedule sched m = Some m' -> rtc mstep m m'.
Proof.
  induction sched as [|who rest IH]; intros m m' Hs; simpl in Hs.
  - injection Hs as ->. constructor.
  - destruct (machine_step who m) as [m1|] eqn:Hm; [|discriminate].
    eapply rtc_l; [exists who; exact Hm|]. apply IH. exact Hs.
Qed.

Lemma after_rtc sched : forall m, rtc mstep m (after sched m).
Proof.
  induction sched as [|who rest IH]; intros m; simpl.
  - constructor.
  - destruct (machine_step who m) as [m1|] eqn:Hm; [|constructor].
    eapply rtc_l; [exists who; exact Hm|]. apply IH.
Qed.

(** Once [done] is closed it stays closed, whatever is performed. *)
Lemma perform_keeps_done_closed {X} (op : Op X) w x w' :
  perform op w = Returns x w' ->
  done_closed (stream w) = true ->
  done_closed (stream w') = true.
Proof.
  intros Hp Hd. destruct op; simpl in Hp; repeat case_match; simplify_eq; simpl; auto.
Qed.

Lemma thread_step_keeps_done_closed {R} (p : Prog R) w :
  done_closed (stream w) = true ->
  forall p' w', thread_step p w = Next p' w' -> done_closed (stream w') = true.
Proof.
  intros Hd. destruct p as [R r|R e|R X op k|R S X body s k]; simpl; intros p' w' Hs;
    try discriminate.
  - destruct (perform op w) as [x w1| |e] eqn:Hp; simplify_eq.
    + eapply perform_keeps_done_closed; eassumption.
    + exact Hd.
  - simplify_eq. exact Hd.
Qed.

Lemma mstep_keeps_done_closed m m' :
  mstep m m' ->
  done_closed (stream (world m)) = true ->
  done_closed (stream (world m')) = true.
Proof.
  intros [who Hm] Hd. unfold machine_step in Hm.
  destruct (crashed (task m) || crashed (caller m)); [discriminate|].
  destruct who.
  - destruct (thread_step (task m) (world m)) as [p w| | |] eqn:Hs; simplify_eq. simpl.
    eapply thread_step_keeps_done_closed; eassumption.
  - destruct (thread_step (caller m) (world m)) as [p w| | |] eqn:Hs; simplify_eq. simpl.
    eapply thread_step_keeps_done_closed; eassumption.
Qed.

Lemma rtc_keeps_done_closed m m' :
  rtc mstep m m' ->
  done_closed (stream (world m)) = true ->
  done_closed (stream (world m')) = true.
Proof.
  induction 1 as [|m m1 m' Hm _ IH]; intros Hd; [exact Hd|].
  apply IH. eapply mstep_keeps_done_closed; eassumption.
Qed.

(** A process that has crashed takes no step. *)
Lemma crashed_caller_is_stuck m m' :
  crashed (caller m) = true -> rtc mstep m m' -> m' = m.
Proof.
  intros Hc Hr. destruct Hr as [|m m1 m' [who Hm] _]; [reflexivity|].
  unfold machine_step in Hm. rewrite Hc, orb_true_r in Hm. discriminate.
Qed.

(** When a call of [Stop] has returned, [done] is closed. *)
Lemma Stop_returned_done_closed m1 m2 :
  rtc mstep m1 m2 ->
  caller m1 = Stop ->
  caller m2 = Ret tt ->
  done_closed (stream (world m2)) = true.
Proof.
  induction 1 as [m|m1 m' m2 [who Hm] Hrest IH]; intros H1 H2.
  - rewrite H1 in H2. discriminate.
  - unfold machine_step in Hm.
    destruct (crashed (task m1) || crashed (caller m1)); [discriminate|].
    destruct who.
    + destruct (thread_step (task m1) (world m1)) as [p w| | |]; simplify_eq.
      apply IH; [exact H1|exact H2].
    + rewrite H1 in Hm. simpl in Hm.
      destruct (done_closed (stream (world m1))) eqn:Hd; simplify_eq.
      * apply crashed_caller_is_stuck in Hrest; [|reflexivity].
        subst m2. simpl in H2. discriminate.
      * apply (rtc_keeps_done_closed _ _ Hrest). reflexivity.
Qed.

(** C2, as the code has it: once a call of [Stop] has returned, a second
    call at any later moment panics at its first statement, the close of
    the closed [done]; it does not block and it leaves the world as it
    was, so [Messages] is not closed a second time. *)
Theorem second_Stop_panics m1 m2 m3 :
  caller m1 = Stop ->
  rtc mstep m1 m2 ->
  caller m2 = Ret tt ->
  rtc mstep m2 m3 ->
  thread_step Stop (world m3) = Next (Throw "close of closed channel") (world m3).
Proof.
  intros H1 H12 H2 H23.
  pose proof (Stop_returned_done_closed m1 m2 H12 H1 H2) as Hd.
  pose proof (rtc_keeps_done_closed m2 m3 H23 Hd) as Hd3.
  simpl. rewrite Hd3. reflexivity.
Qed.

(** C2 as stated fails: the background goroutine has exited on its own
    after a 404, the first [Stop] returns, and the second one panics. *)
Lemma second_Stop_is_not_a_no_op :
  exists m1 m2,
    schedule (repeat Task 8 ++ repeat Caller 4)
      (start (example_session [Reply 404 []]) Stop_twice) = Some m1
    /\ exited (task m1) = true
    /\ caller m1 = Stop
    /\ machine_step Caller m1 = Some m2
    /\ caller m2 = Throw "close of closed channel"
    /\ crashed (caller m2) = true.
Proof.
  eexists. eexists. split; [vm_compute; reflexivity|].
  split; [reflexivity|]. split; [reflexivity|]. split; [reflexivity|].
  split; reflexivity.
Qed.

Lemma second_Stop_panics_witness :
  let m1 := start (example_session [Reply 404 []]) Stop in
  let m2 := after [Caller; Task; Task; Task; Task; Caller; Caller] m1 in
  let m3 := after [Task] m2 in
  thread_step Stop (world m3) = Next (Throw "close of closed channel") (world m3).
Proof.
  intros m1 m2 m3.
  apply (second_Stop_panics m1 m2 m3).
  - reflexivity.
  - apply after_rtc.
  - vm_compute. reflexivity.
  - apply after_rtc.
Defined.

(** C4 fails on the code: [retry] defers the close of [Messages] before
    the release of the wait group, so at its exit the wait group is
    released first.  Here [Stop] has returned, and [Messages] is still
    open and the background goroutine still running. *)
Theorem Stop_can_return_before_Messages_is_closed :
  exists m,
    schedule [Caller; Task; Task; Task; Caller; Caller]
      (start (example_session []) Stop) = Some m
    /\ caller m = Ret tt
    /\ ch_closed (Messages (stream (world m))) = false
    /\ exited (task m) = false
    /\ thread_step (task m) (world m)
       = Next (Ret tt)
           (with_stream (set_Messages {| ch_closed := true; received := [] |}) (world m)).
Proof.
  eexists. split; [vm_compute; reflexivity|].
  split; [reflexivity|]. split; [reflexivity|]. split; reflexivity.
Qed.

(** ** Connecting *)

Section ConnectClaims.

Variable json_Unmarshal : list byte -> StreamData -> StreamData * option error.
Variable http_NewRequest : string -> string -> option Request * option error.
Variable query_Values :
  option StreamFilterParams -> list (string * list string) * option error.
Variable Values_Encode : list (string * list string) -> string.
Context {B : Type} `{BackOff B}.
Variable newExponentialBackOff : B.
Variable newAggressiveExponentialBackOff : B.

(** X12: whatever [Connect] returns, it is not an error and it is a
    session: [createStreamRequest] always hands back a nil error, so the
    error branch of lines 41-43 is never taken.  What [Connect] does not
    return is a panic of [createStreamRequest] on a nil request. *)
Lemma Connect_never_returns_an_error srv params r :
  Connect json_Unmarshal http_NewRequest query_Values Values_Encode
    newExponentialBackOff newAggressiveExponentialBackOff srv params = Value r ->
  snd r = None /\ fst r <> None.
Proof.
  unfold Connect, createStreamRequest.
  destruct (http_NewRequest _ _) as [[req|] e]; [|discriminate].
  destruct (query_Values params) as [q e']. intros [= <-]. split; [reflexivity|discriminate].
Qed.

(** C10: [http.NewRequest] giving a request for the constant method
    and URL, [Connect] returns a session and a nil error for all
    parameters and every token; the errors of [http.NewRequest] and of
    [query.Values] do not reach the result. *)
Theorem Connect_gives_a_session_and_no_error srv params r0 :
  fst (http_NewRequest "GET" (streamV2Endpoint ++ "/" ++ "stream")%string) = Some r0 ->
  Connect json_Unmarshal http_NewRequest query_Values Values_Encode
    newExponentialBackOff newAggressiveExponentialBackOff srv params
  = Value
      (Some (newStream json_Unmarshal newExponentialBackOff newAggressiveExponentialBackOff
               (srv_client srv)
               (Some (set_RawQuery (Values_Encode (fst (query_Values params)))
                        (Header_Set "Authorization" ("Bearer " ++ token srv)%string r0)))),
       None).
Proof.
  intros Hreq. unfold Connect, createStreamRequest.
  destruct (http_NewRequest _ _) as [req e]. simpl in Hreq. subst req.
  destruct (query_Values params) as [q e']. reflexivity.
Qed.

End ConnectClaims.

Lemma Connect_gives_a_session_and_no_error_witness :
  Connect example_Unmarshal example_NewRequest refusing_Values example_Encode
    (scripted [second / 2]) (scripted [2 * second; 4 * second])
    (NewStreamService (answering []) "t") None
  = Value (Some (example_session []), None).
Proof.
  exact (Connect_gives_a_session_and_no_error example_Unmarshal example_NewRequest
           refusing_Values example_Encode
           (scripted [second / 2]) (scripted [2 * second; 4 * second])
           (NewStreamService (answering []) "t") None
           {| Method := "GET"; URL := (streamV2Endpoint ++ "/stream")%string;
              Header := []; RawQuery := "" |}
           eq_refl).
Defined.

(** ** The background goroutine under a caller that stops it *)

Lemma all_closed_lookup w :
  all_closed w <-> forall i c, net w !! i = Some c -> closed c = true.
Proof. unfold all_closed. apply Forall_lookup. Qed.

Lemma holding_opened b ds lines w :
  between ds w ->
  b = length (net w) ->
  holding b (DeferBodyClose b :: ds)
    (with_net (fun n => n ++ [{| pending := lines; closed := false |}]) (issued w)).
Proof.
  intros (Hrun & [bs Hbs] & Hall) ->. split; [exact Hrun|]. split; [|split].
  - exists (length (net w) :: bs). rewrite Hbs. reflexivity.
  - simpl. rewrite length_app. simpl. lia.
  - simpl. intros i c Hi Hc. rewrite lookup_app_l in Hc by exact Hi.
    exact (proj1 (all_closed_lookup w) Hall i c Hc).
Qed.

Lemma holding_read b ds x w :
  holding b ds w -> holding b ds (with_net (fun n => <[b := x]> n) w).
Proof.
  intros (Hrun & Hst & Hlen & Hbefore). split; [exact Hrun|]. split; [exact Hst|]. split.
  - simpl. rewrite length_insert. exact Hlen.
  - simpl. intros i c Hi Hc. rewrite list_lookup_insert_ne in Hc by lia.
    exact (Hbefore i c Hi Hc).
Qed.

Lemma holding_closed b ds w :
  holding b ds w -> between ds (with_net (alter close_conn b) w).
Proof.
  intros (Hrun & Hst & Hlen & Hbefore). split; [exact Hrun|]. split; [exact Hst|].
  apply all_closed_lookup. simpl. intros i c Hc.
  rewrite list_lookup_alter in Hc. case_decide as Hi.
  - subst i. apply fmap_Some in Hc as (c0 & _ & ->). reflexivity.
  - apply (Hbefore i c); [|exact Hc].
    apply lookup_lt_Some in Hc. lia.
Qed.

Lemma close_keeps_all_closed c w :
  all_closed w -> all_closed (with_net (alter close_conn c) w).
Proof. apply all_closed_close. Qed.

Lemma close_keeps_holding c b ds w :
  holding b ds w -> holding b ds (with_net (alter close_conn c) w).
Proof.
  intros (Hrun & Hst & Hlen & Hbefore). split; [exact Hrun|]. split; [exact Hst|]. split.
  - simpl. rewrite length_alter. exact Hlen.
  - simpl. intros i x Hi Hx. rewrite list_lookup_alter in Hx. case_decide as Hci.
    + subst i. apply fmap_Some in Hx as (c0 & _ & ->). reflexivity.
    + exact (Hbefore i x Hi Hx).
Qed.

Section PositionFacts.

Variable json_Unmarshal : list byte -> StreamData -> StreamData * option error.
Context {B : Type} `{BackOff B}.
Variable req : option Request.

Lemma holds_exit (l : Locals B) ex w :
  between (deferred l) w -> holds (@AtExit B (deferred l) ex) w.
Proof. intros (Hrun & Hst & Hall). split; [exact Hall|]. left. split; assumption. Qed.

(** A step of the background goroutine takes it from one point of
    [retry] to another, and what holds there holds again. *)
Lemma task_step_sound (pos : Pos B) w p' w' :
  holds pos w ->
  thread_step (code json_Unmarshal req pos) w = Next p' w' ->
  exists pos', p' = code json_Unmarshal req pos' /\ holds pos' w'.
Proof.
  intros Hh Hs. destruct pos as [l|l|l|resp l|resp l|resp l|resp l|resp l data
                                 |resp l msg|resp l|l|resp l|ds ex]; simpl in Hh.
  - (* line 118: the loop of retry is entered *)
    simpl in Hs. simplify_eq. exists (AtTurn l). split; [reflexivity|exact Hh].
  - (* line 118: stopped *)
    simpl in Hs. simplify_eq. destruct (done_closed (stream w')).
    + exists (AtExit (deferred l) Return). split; [reflexivity|].
      apply holds_exit. exact Hh.
    + exists (AtRequest l). split; [reflexivity|exact Hh].
  - (* line 119: the request *)
    simpl in Hs. destruct (client (stream w) (requests w)) as [e|status lines];
      simplify_eq.
    + exists (AtExit (deferred l) (Panic e)). split; [reflexivity|].
      apply holds_exit. exact Hh.
    + exists (AtStore {| StatusCode := status; Body := length (net w) |}
                (push_deferred (DeferBodyClose (length (net w))) l)).
      split; [reflexivity|]. simpl. apply holding_opened; [exact Hh|reflexivity].
  - (* line 126, then the switch *)
    simpl in Hs. simplify_eq.
    assert (Hh' : forall l' : Locals B, deferred l' = deferred l ->
              holding (Body resp) (deferred l') (with_stream (set_body (Some (Body resp))) w)).
    { intros l' ->. exact Hh. }
    unfold retry_switch.
    destruct (StatusCode resp =? 200); [|destruct (StatusCode resp =? 503);
      [|destruct ((StatusCode resp =? 420) || (StatusCode resp =? 429))]].
    + eexists (AtReceiveLoop resp _). split; [reflexivity|]. apply Hh'. reflexivity.
    + destruct (NextBackOff (expBackOff l)) as [d b'].
      eexists (AtClose resp _). split; [reflexivity|]. apply Hh'. reflexivity.
    + destruct (NextBackOff (aggExpBackOff l)) as [d b'].
      eexists (AtClose resp _). split; [reflexivity|]. apply Hh'. reflexivity.
    + exists (AtLastClose resp l). split; [reflexivity|]. apply Hh'. reflexivity.
  - (* line 159: the loop of receive is entered *)
    simpl in Hs. simplify_eq. exists (AtReceiveTurn resp l). split; [reflexivity|exact Hh].
  - (* line 159: stopped *)
    simpl in Hs. simplify_eq. destruct (done_closed (stream w')).
    + exists (AtClose resp l). split; [reflexivity|exact Hh].
    + exists (AtRead resp l). split; [reflexivity|exact Hh].
  - (* line 160: readNext *)
    simpl in Hs.
    destruct (net w !! Body resp) as [c|];
      [destruct (closed c); [|destruct (pending c) as [|line rest]]|]; simplify_eq;
      try (exists (AtClose resp l); split; [reflexivity|exact Hh]).
    destruct (length line =? 0)%nat.
    + exists (AtReceiveLoop resp l). split; [reflexivity|]. apply holding_read. exact Hh.
    + exists (AtSelect resp l line). split; [reflexivity|]. apply holding_read. exact Hh.
  - (* line 168: the select *)
    simpl in Hs. simplify_eq. destruct (done_closed (stream w')).
    + exists (AtClose resp l). split; [reflexivity|exact Hh].
    + exists (AtSend resp l (fst (getMessage json_Unmarshal data))).
      split; [|exact Hh]. destruct (getMessage json_Unmarshal data). reflexivity.
  - (* line 175: the send *)
    simpl in Hs. destruct Hh as ((Hc & Hg) & Hrest). rewrite Hc in Hs.
    destruct (receiving w); simplify_eq.
    exists (AtReceiveLoop resp l). split; [reflexivity|].
    split; [split; [reflexivity|exact Hg]|exact Hrest].
  - (* line 146: the close before the next retry *)
    simpl in Hs. simplify_eq. apply holding_closed in Hh.
    unfold after_switch. destruct (wait l =? backoff_Stop).
    + exists (AtExit (deferred l) Return). split; [reflexivity|].
      apply holds_exit. exact Hh.
    + exists (AtSleep l). split; [reflexivity|exact Hh].
  - (* line 150: the sleep *)
    simpl in Hs. simplify_eq. exists (AtLoop l). split; [reflexivity|exact Hh].
  - (* line 142: the close before the return *)
    simpl in Hs. simplify_eq. apply holding_closed in Hh.
    exists (AtExit (deferred l) Return). split; [reflexivity|].
    apply holds_exit. exact Hh.
  - (* the deferred calls *)
    destruct Hh as (Hall & [([bs Hbs] & Hc & Hg)|[(-> & Hc & Hg)|(-> & Hc & Hg)]]).
    + subst ds. destruct bs as [|b bs]; simpl in Hs.
      * rewrite Hg in Hs. simpl in Hs. simplify_eq.
        exists (AtExit [DeferCloseMessages] ex). split; [reflexivity|].
        split; [exact Hall|]. right. left. split; [reflexivity|]. split; [exact Hc|reflexivity].
      * simplify_eq.
        exists (AtExit (map DeferBodyClose bs ++ [DeferGroupDone; DeferCloseMessages]) ex).
        split; [reflexivity|]. split; [apply all_closed_close; exact Hall|].
        left. split; [exists bs; reflexivity|]. split; assumption.
    + simpl in Hs. rewrite Hc in Hs. simplify_eq.
      exists (AtExit [] ex). split; [reflexivity|].
      split; [exact Hall|]. right. right. split; [reflexivity|]. split; [reflexivity|exact Hg].
    + simpl in Hs. destruct ex; discriminate.
Qed.

(** What the caller does leaves what holds in place. *)
Lemma caller_op_keeps_holds (pos : Pos B) w {X} (op : Op X) x w' :
  caller_op op = true ->
  perform op w = Returns x w' ->
  holds pos w ->
  holds pos w'.
Proof.
  intros Hop Hp Hh. destruct op; simpl in Hop; try discriminate; simpl in Hp.
  - (* close(s.done) *)
    destruct (done_closed (stream w)); simplify_eq. destruct pos; exact Hh.
  - (* s.body.Close() *)
    simplify_eq. destruct pos; simpl in *;
      try (apply close_keeps_holding; exact Hh);
      try (destruct Hh as (Hrun & Hst & Hall); split; [exact Hrun|];
           split; [exact Hst|]; apply all_closed_close; exact Hall).
    destruct Hh as (Hall & Hrest). split; [apply all_closed_close; exact Hall|exact Hrest].
  - (* s.body *)
    simplify_eq. exact Hh.
  - (* s.group.Wait() *)
    destruct (group (stream w) =? 0); simplify_eq. exact Hh.
Qed.

Lemma caller_step_sound {R} (p p' : Prog R) w w' :
  polite p ->
  thread_step p w = Next p' w' ->
  polite p' /\ forall pos : Pos B, holds pos w -> holds pos w'.
Proof.
  intros Hp Hs. destruct Hp as [r|e|X op k Hop Hk]; simpl in Hs; try discriminate.
  destruct (perform op w) as [x w1| |e] eqn:Hperf; simplify_eq.
  - split; [apply Hk|]. intros pos Hh. eapply caller_op_keeps_holds; eassumption.
  - split; [constructor|]. intros pos Hh. exact Hh.
Qed.

Lemma mstep_sound m m' (pos : Pos B) :
  sound json_Unmarshal req m pos ->
  mstep m m' ->
  exists pos', sound json_Unmarshal req m' pos'.
Proof.
  intros (Ht & Hh & Hp) [who Hm]. unfold machine_step in Hm.
  destruct (crashed (task m) || crashed (caller m)); [discriminate|]. destruct who.
  - destruct (thread_step (task m) (world m)) as [p w| | |] eqn:Hs; simplify_eq.
    rewrite Ht in Hs. destruct (task_step_sound pos _ _ _ Hh Hs) as (pos' & -> & Hh').
    exists pos'. split; [reflexivity|]. split; [exact Hh'|exact Hp].
  - destruct (thread_step (caller m) (world m)) as [p w| | |] eqn:Hs; simplify_eq.
    destruct (caller_step_sound _ _ _ _ Hp Hs) as [Hp' Hkeep].
    exists pos. split; [exact Ht|]. split; [apply Hkeep; exact Hh|exact Hp'].
Qed.

Lemma rtc_sound m m' :
  rtc mstep m m' ->
  forall pos : Pos B, sound json_Unmarshal req m pos ->
  exists pos', sound json_Unmarshal req m' pos'.
Proof.
  induction 1 as [m|m m1 m' Hm _ IH]; intros pos Hs; [exists pos; exact Hs|].
  destruct (mstep_sound m m1 pos Hs Hm) as [pos1 Hs1]. exact (IH pos1 Hs1).
Qed.

Lemma newStream_sound (e a : B) client caller :
  polite caller ->
  sound json_Unmarshal req
    (start (newStream json_Unmarshal e a client req) caller)
    (AtLoop {| wait := 0; expBackOff := e; aggExpBackOff := a;
               deferred := [DeferGroupDone; DeferCloseMessages] |}).
Proof.
  intros Hp. split; [reflexivity|]. split; [|exact Hp].
  split; [split; reflexivity|]. split; [exists []; reflexivity|constructor].
Qed.

Lemma exited_over (pos : Pos B) w :
  holds pos w ->
  exited (code json_Unmarshal req pos) = true ->
  exists ex, pos = AtExit [] ex /\ ch_closed (Messages (stream w)) = true.
Proof.
  intros Hh Hex. destruct pos; simpl in Hex; try discriminate.
  destruct ds as [|d ds]; [|destruct d; discriminate].
  exists ex. split; [reflexivity|].
  destruct Hh as (_ & [([[|b bs] Hbs] & _)|[(Hds & _)|(_ & Hc & _)]]);
    try discriminate. exact Hc.
Qed.

End PositionFacts.

Lemma Stop_polite : polite Stop.
Proof.
  unfold Stop. simpl. constructor; [reflexivity|]. intros [].
  constructor; [reflexivity|]. intros [c|]; simpl.
  - constructor; [reflexivity|]. intros []. simpl.
    constructor; [reflexivity|]. intros []. constructor.
  - constructor; [reflexivity|]. intros []. constructor.
Qed.

Section SessionClaims.

Variable json_Unmarshal : list byte -> StreamData -> StreamData * option error.
Context {B : Type} `{BackOff B}.
Variable req : option Request.
Variable newExponentialBackOff : B.
Variable newAggressiveExponentialBackOff : B.

(** C9: in every state a session can reach under a caller that only
    stops it, the background goroutine is at one of the points of
    [retry], and the only body that can be open is the one of the
    request cycle it is in, up to the close of line 142 or 146; between
    two cycles, while [retry] leaves and when it is over, by return or by
    panic, every body is closed. *)
Theorem only_the_cycle_in_progress_holds_a_body client caller m :
  polite caller ->
  rtc mstep
    (start (newStream json_Unmarshal newExponentialBackOff newAggressiveExponentialBackOff
              client req) caller) m ->
  (exists pos : Pos B,
      task m = code json_Unmarshal req pos
      /\ match cycle_body pos with
         | None => all_closed (world m)
         | Some b =>
             length (net (world m)) = S b
             /\ forall i c, (i < b)%nat -> net (world m) !! i = Some c -> closed c = true
         end)
  /\ (exited (task m) = true -> all_closed (world m)).
Proof.
  intros Hp Hr.
  destruct (rtc_sound json_Unmarshal req _ _ Hr _
              (newStream_sound json_Unmarshal req _ _ client caller Hp))
    as (pos & Ht & Hh & _).
  split.
  - exists pos. split; [exact Ht|].
    destruct pos; simpl in *;
      try (destruct Hh as (_ & _ & Hall); exact Hall);
      try (destruct Hh as (_ & _ & Hlen & Hbefore); split; assumption).
    destruct Hh as (Hall & _). exact Hall.
  - intros Hex. rewrite Ht in Hex.
    destruct (exited_over json_Unmarshal req pos _ Hh Hex) as (ex & -> & _).
    destruct Hh as (Hall & _). exact Hall.
Qed.

(** In every such state [Messages] is closed exactly when the background
    goroutine is over; so nothing is sent on it after it was closed. *)
Theorem Messages_is_closed_iff_retry_is_over client caller m :
  polite caller ->
  rtc mstep
    (start (newStream json_Unmarshal newExponentialBackOff newAggressiveExponentialBackOff
              client req) caller) m ->
  ch_closed (Messages (stream (world m))) = true <-> exited (task m) = true.
Proof.
  intros Hp Hr.
  destruct (rtc_sound json_Unmarshal req _ _ Hr _
              (newStream_sound json_Unmarshal req _ _ client caller Hp))
    as (pos & Ht & Hh & _).
  split.
  - intros Hc. rewrite Ht.
    destruct pos; simpl in Hh;
      try (destruct Hh as ((Hc' & _) & _); congruence).
    destruct Hh as (_ & [(_ & Hc' & _)|[(_ & Hc' & _)|(-> & _)]]); try congruence.
    destruct ex; reflexivity.
  - intros Hex. rewrite Ht in Hex.
    destruct (exited_over json_Unmarshal req pos _ Hh Hex) as (ex & _ & Hc). exact Hc.
Qed.

End SessionClaims.

Lemma only_the_cycle_in_progress_holds_a_body_witness :
  let m := after [Task; Task; Task; Task; Task; Caller; Task; Caller; Task; Task; Task]
             (start (example_session [Reply 200 [tweet_line "1"; tweet_line "2"]]) Stop) in
  (exists pos : Pos Scripted,
      task m = code example_Unmarshal example_request pos
      /\ match cycle_body pos with
         | None => all_closed (world m)
         | Some b =>
             length (net (world m)) = S b
             /\ forall i c, (i < b)%nat -> net (world m) !! i = Some c -> closed c = true
         end)
  /\ (exited (task m) = true -> all_closed (world m)).
Proof.
  intros m.
  apply (only_the_cycle_in_progress_holds_a_body example_Unmarshal example_request
           (scripted [second / 2]) (scripted [2 * second; 4 * second])
           (answering [Reply 200 [tweet_line "1"; tweet_line "2"]]) Stop m).
  - apply Stop_polite.
  - apply after_rtc.
Defined.

(** ** Several request cycles in a row *)

Section RoundsFacts.

Variable json_Unmarshal : list byte -> StreamData -> StreamData * option error.
Context {B : Type} `{BackOff B}.
Variable req : option Request.

Lemma still_looping_refl (l : Locals B) w :
  at_loop_head l w ->
  done_closed (stream w) = false ->
  receiving w = true ->
  still_looping json_Unmarshal req l w l w.
Proof.
  intros Hinv Hd Hr. split; [exists 0%nat; reflexivity|].
  split; [exact Hinv|]. split; [exact Hd|]. split; [exact Hr|reflexivity].
Qed.

(** One more cycle in front of cycles already known. *)
Lemma still_looping_step (l l1 l' : Locals B) w w' :
  at_loop_head l w ->
  done_closed (stream w) = false ->
  receiving w = true ->
  transition l (length (net w)) (client (stream w) (requests w)) = inl l1 ->
  (at_loop_head l1 (turn_world json_Unmarshal l w) ->
   done_closed (stream (turn_world json_Unmarshal l w)) = false ->
   receiving (turn_world json_Unmarshal l w) = true ->
   still_looping json_Unmarshal req l1 (turn_world json_Unmarshal l w) l' w') ->
  still_looping json_Unmarshal req l w l' w'.
Proof.
  intros Hinv Hd Hr Ht Hrest.
  pose proof Hinv as (_ & _ & _ & Hc & _).
  destruct (turn_world_stream json_Unmarshal l w Hc) as (Hd1 & _ & Hcl1 & _).
  destruct Hrest as ([n2 Hn2] & Hinv' & Hd' & Hr' & Hcl').
  - apply at_loop_head_next; assumption.
  - rewrite Hd1. exact Hd.
  - rewrite turn_world_receiving. exact Hr.
  - destruct (retry_goes_round json_Unmarshal req l l1 w Hd Hr Hc Ht) as [n1 [_ Hn1]].
    split.
    + exists (n1 + n2)%nat. intros m. rewrite <- Nat.add_assoc. rewrite Hn1. apply Hn2.
    + split; [exact Hinv'|]. split; [exact Hd'|]. split; [exact Hr'|].
      rewrite Hcl'. exact Hcl1.
Qed.

Lemma turn_world_slept_503 (l : Locals B) w lines :
  client (stream w) (requests w) = Reply 503 lines ->
  fst (NextBackOff (expBackOff l)) <> backoff_Stop ->
  slept (turn_world json_Unmarshal l w) = slept w ++ [fst (NextBackOff (expBackOff l))].
Proof.
  intros Hcl Hw. apply Z.eqb_neq in Hw. unfold turn_world. rewrite Hcl. simpl.
  rewrite after_switch_world_slept, Hw. reflexivity.
Qed.

(** As long as the Standard policy does not stop, 503 after 503 takes
    [retry] round its loop, sleeping the waits of the policy. *)
Lemma standard_rounds k : forall (l : Locals B) w,
  at_loop_head l w ->
  done_closed (stream w) = false ->
  receiving w = true ->
  answers_status 503 w k ->
  Forall (fun d => d <> backoff_Stop) (waits k (expBackOff l)) ->
  exists l' w',
    still_looping json_Unmarshal req l w l' w'
    /\ expBackOff l' = advance k (expBackOff l)
    /\ aggExpBackOff l' = aggExpBackOff l
    /\ slept w' = slept w ++ waits k (expBackOff l)
    /\ requests w' = (requests w + k)%nat
    /\ received (Messages (stream w')) = received (Messages (stream w)).
Proof.
  induction k as [|k IH]; intros l w Hinv Hd Hr Hans Hw.
  - exists l, w. split; [apply still_looping_refl; assumption|].
    simpl. rewrite app_nil_r, Nat.add_0_r. repeat split.
  - destruct (Hans 0%nat) as [lines Hcl]; [lia|]. rewrite Nat.add_0_r in Hcl.
    simpl in Hw. apply Forall_cons in Hw as [Hw0 Hw].
    set (l1 := {| wait := fst (NextBackOff (expBackOff l));
                  expBackOff := snd (NextBackOff (expBackOff l));
                  aggExpBackOff := aggExpBackOff l;
                  deferred := DeferBodyClose (length (net w)) :: deferred l |}).
    assert (Ht : transition l (length (net w)) (client (stream w) (requests w)) = inl l1).
    { rewrite Hcl. unfold transition, stop_or_continue. simpl.
      apply Z.eqb_neq in Hw0. rewrite Hw0. reflexivity. }
    pose proof Hinv as (_ & _ & _ & Hc & _).
    destruct (turn_world_stream json_Unmarshal l w Hc) as (Hd1 & _ & Hcl1 & _).
    destruct (IH l1 (turn_world json_Unmarshal l w))
      as (l' & w' & Hloop & He & Ha & Hs & Hq & Hrc).
    + apply at_loop_head_next; assumption.
    + rewrite Hd1. exact Hd.
    + rewrite turn_world_receiving. exact Hr.
    + intros i Hi. rewrite Hcl1, turn_world_requests.
      destruct (Hans (S i)) as [lines' Hcl']; [lia|]. exists lines'.
      rewrite <- Hcl'. f_equal. lia.
    + exact Hw.
    + exists l', w'. split.
      * apply (still_looping_step l l1 l' w w' Hinv Hd Hr Ht). intros _ _ _. exact Hloop.
      * split; [exact He|]. split; [exact Ha|]. split.
        -- rewrite Hs, (turn_world_slept_503 l w lines Hcl Hw0). simpl.
           rewrite <- app_assoc. reflexivity.
        -- split; [rewrite Hq, turn_world_requests; lia|].
           rewrite Hrc. unfold turn_world. rewrite Hcl. simpl.
           rewrite after_switch_world_stream. reflexivity.
Qed.

Lemma turn_world_slept_stop (l l' : Locals B) w :
  transition l (length (net w)) (client (stream w) (requests w)) = inr (l', Return) ->
  slept (turn_world json_Unmarshal l w) = slept w.
Proof.
  unfold transition, turn_world.
  destruct (client (stream w) (requests w)) as [e|status lines]; [discriminate|].
  destruct (status =? 200); [|destruct (status =? 503);
    [|destruct ((status =? 420) || (status =? 429))]];
    try reflexivity;
    unfold stop_or_continue; simpl; rewrite after_switch_world_slept;
    match goal with
    | |- context [?d =? backoff_Stop] => destruct (d =? backoff_Stop); [|discriminate]
    end; intros _; apply app_nil_r.
Qed.

(** A cycle that makes [retry] return ends the run. *)
Lemma still_looping_returns (l l' l'' : Locals B) w w' :
  still_looping json_Unmarshal req l w l' w' ->
  transition l' (length (net w')) (client (stream w') (requests w')) = inr (l'', Return) ->
  exists n w'',
    run n (retry_from json_Unmarshal req l) w = Finished tt w''
    /\ requests w'' = S (requests w')
    /\ slept w'' = slept w'
    /\ received (Messages (stream w'')) = received (Messages (stream w'))
    /\ ch_closed (Messages (stream w'')) = true
    /\ all_closed w''.
Proof.
  intros ([n1 Hn1] & Hinv & Hd & Hr & _) Ht.
  destruct (retry_leaves json_Unmarshal req l' l'' Return w' Hinv Hd Hr Ht)
    as (n2 & bs & _ & Hn2).
  pose proof Hinv as (_ & Hw & _ & Hc & Hall).
  destruct (wound_up_facts bs (turn_world json_Unmarshal l' w'))
    as (Hq & Hsl & Hcc & Hrc & _ & Hcl).
  exists (n1 + n2)%nat, (wound_up bs (turn_world json_Unmarshal l' w')).
  split; [rewrite Hn1; apply run_finished; exact Hn2|].
  split; [rewrite Hq; apply turn_world_requests|].
  split; [rewrite Hsl; apply (turn_world_slept_stop l' l''); exact Ht|].
  split; [|split; [exact Hcc|apply Hcl; apply turn_world_all_closed; exact Hall]].
  rewrite Hrc. clear -Ht Hw. unfold transition, turn_world in *.
  destruct (client (stream w') (requests w')) as [e|status lines]; [discriminate|].
  destruct (status =? 200) eqn:H200.
  - (* at the head of the loop the wait is not the stop sentinel *)
    unfold stop_or_continue in Ht. simpl in Ht. apply Z.eqb_neq in Hw.
    rewrite Hw in Ht. discriminate.
  - destruct (status =? 503); [|destruct ((status =? 420) || (status =? 429))];
      rewrite ?after_switch_world_stream; reflexivity.
Qed.

(** X1: Against 503 after 503, [retry] sleeps the waits of the Standard
    policy one after the other, leaving the Aggressive policy alone, and
    when the policy stops it returns: after [k] waits it has issued
    [k + 1] requests, [Messages] is closed and no body is open. *)
Theorem retry_gives_up_with_the_standard_policy k (l : Locals B) w :
  at_loop_head l w ->
  done_closed (stream w) = false ->
  receiving w = true ->
  answers_status 503 w (S k) ->
  Forall (fun d => d <> backoff_Stop) (waits k (expBackOff l)) ->
  fst (NextBackOff (advance k (expBackOff l))) = backoff_Stop ->
  exists n w',
    run n (retry_from json_Unmarshal req l) w = Finished tt w'
    /\ requests w' = (requests w + S k)%nat
    /\ slept w' = slept w ++ waits k (expBackOff l)
    /\ received (Messages (stream w')) = received (Messages (stream w))
    /\ ch_closed (Messages (stream w')) = true
    /\ all_closed w'.
Proof.
  intros Hinv Hd Hr Hans Hw Hstop.
  destruct (standard_rounds k l w Hinv Hd Hr)
    as (l' & w' & Hloop & He & Ha & Hs & Hq & Hrc);
    [intros i Hi; apply Hans; lia|exact Hw|].
  pose proof Hloop as (_ & Hinv' & _ & _ & Hcl).
  destruct (Hans k) as [lines Hk]; [lia|].
  destruct (still_looping_returns l l'
              {| wait := backoff_Stop; expBackOff := snd (NextBackOff (expBackOff l'));
                 aggExpBackOff := aggExpBackOff l';
                 deferred := DeferBodyClose (length (net w')) :: deferred l' |} w w' Hloop)
    as (n & w'' & Hrun & Hq' & Hs' & Hrc' & Hcc & Hall).
  { rewrite Hcl, Hq, Hk. unfold transition, stop_or_continue. simpl.
    rewrite He, Hstop. reflexivity. }
  exists n, w''. split; [exact Hrun|]. split; [rewrite Hq', Hq; lia|].
  split; [rewrite Hs'; exact Hs|]. split; [|split; assumption].
  rewrite Hrc'. exact Hrc.
Qed.

Lemma rate_limited_tests status :
  status = 420 \/ status = 429 ->
  (status =? 200) = false /\ (status =? 503) = false
  /\ (status =? 420) || (status =? 429) = true.
Proof. intros [-> | ->]; repeat split. Qed.

(** The same for 420 and 429 and the Aggressive policy. *)
Lemma aggressive_rounds k : forall (l : Locals B) w,
  at_loop_head l w ->
  done_closed (stream w) = false ->
  receiving w = true ->
  answers_rate_limited w k ->
  Forall (fun d => d <> backoff_Stop) (waits k (aggExpBackOff l)) ->
  exists l' w',
    still_looping json_Unmarshal req l w l' w'
    /\ expBackOff l' = expBackOff l
    /\ aggExpBackOff l' = advance k (aggExpBackOff l)
    /\ slept w' = slept w ++ waits k (aggExpBackOff l)
    /\ requests w' = (requests w + k)%nat
    /\ received (Messages (stream w')) = received (Messages (stream w)).
Proof.
  induction k as [|k IH]; intros l w Hinv Hd Hr Hans Hw.
  - exists l, w. split; [apply still_looping_refl; assumption|].
    simpl. rewrite app_nil_r, Nat.add_0_r. repeat split.
  - destruct (Hans 0%nat) as (status & lines & Hcl & Hst); [lia|].
    rewrite Nat.add_0_r in Hcl.
    destruct (rate_limited_tests status Hst) as (H200 & H503 & H42x).
    simpl in Hw. apply Forall_cons in Hw as [Hw0 Hw].
    pose proof Hw0 as Hw0'. apply Z.eqb_neq in Hw0'.
    set (l1 := {| wait := fst (NextBackOff (aggExpBackOff l));
                  expBackOff := expBackOff l;
                  aggExpBackOff := snd (NextBackOff (aggExpBackOff l));
                  deferred := DeferBodyClose (length (net w)) :: deferred l |}).
    assert (Ht : transition l (length (net w)) (client (stream w) (requests w)) = inl l1).
    { rewrite Hcl. unfold transition, stop_or_continue. rewrite H200, H503, H42x. simpl.
      rewrite Hw0'. reflexivity. }
    pose proof Hinv as (_ & _ & _ & Hc & _).
    destruct (turn_world_stream json_Unmarshal l w Hc) as (Hd1 & _ & Hcl1 & _).
    destruct (IH l1 (turn_world json_Unmarshal l w))
      as (l' & w' & Hloop & He & Ha & Hs & Hq & Hrc).
    + apply at_loop_head_next; assumption.
    + rewrite Hd1. exact Hd.
    + rewrite turn_world_receiving. exact Hr.
    + intros i Hi. rewrite Hcl1, turn_world_requests.
      destruct (Hans (S i)) as (status' & lines' & Hcl' & Hst'); [lia|].
      exists status', lines'. split; [|exact Hst']. rewrite <- Hcl'. f_equal. lia.
    + exact Hw.
    + exists l', w'. split.
      * apply (still_looping_step l l1 l' w w' Hinv Hd Hr Ht). intros _ _ _. exact Hloop.
      * split; [exact He|]. split; [exact Ha|].
        assert (Htw : turn_world json_Unmarshal l w
                      = after_switch_world (length (net w))
                          (fst (NextBackOff (aggExpBackOff l))) (responded lines w)).
        { unfold turn_world. rewrite Hcl, H200, H503, H42x. reflexivity. }
        split; [|split].
        -- rewrite Hs, Htw, after_switch_world_slept, Hw0'. simpl.
           rewrite <- app_assoc. reflexivity.
        -- rewrite Hq, turn_world_requests. lia.
        -- rewrite Hrc, Htw, after_switch_world_stream. reflexivity.
Qed.

(** X2: Against 420 or 429 time after time, [retry] sleeps the waits of the
    Aggressive policy one after the other, leaving the Standard policy
    alone, and when the policy stops it returns: after [k] waits it has
    issued [k + 1] requests, [Messages] is closed and no body is open. *)
Theorem retry_gives_up_with_the_aggressive_policy k (l : Locals B) w :
  at_loop_head l w ->
  done_closed (stream w) = false ->
  receiving w = true ->
  answers_rate_limited w (S k) ->
  Forall (fun d => d <> backoff_Stop) (waits k (aggExpBackOff l)) ->
  fst (NextBackOff (advance k (aggExpBackOff l))) = backoff_Stop ->
  exists n w',
    run n (retry_from json_Unmarshal req l) w = Finished tt w'
    /\ requests w' = (requests w + S k)%nat
    /\ slept w' = slept w ++ waits k (aggExpBackOff l)
    /\ received (Messages (stream w')) = received (Messages (stream w))
    /\ ch_closed (Messages (stream w')) = true
    /\ all_closed w'.
Proof.
  intros Hinv Hd Hr Hans Hw Hstop.
  destruct (aggressive_rounds k l w Hinv Hd Hr)
    as (l' & w' & Hloop & He & Ha & Hs & Hq & Hrc);
    [intros i Hi; apply Hans; lia|exact Hw|].
  pose proof Hloop as (_ & Hinv' & _ & _ & Hcl).
  destruct (Hans k) as (status & lines & Hk & Hst); [lia|].
  destruct (rate_limited_tests status Hst) as (H200 & H503 & H42x).
  destruct (still_looping_returns l l'
              {| wait := backoff_Stop; expBackOff := expBackOff l';
                 aggExpBackOff := snd (NextBackOff (aggExpBackOff l'));
                 deferred := DeferBodyClose (length (net w')) :: deferred l' |} w w' Hloop)
    as (n & w'' & Hrun & Hq' & Hs' & Hrc' & Hcc & Hall).
  { rewrite Hcl, Hq, Hk. unfold transition, stop_or_continue. rewrite H200, H503, H42x.
    simpl. rewrite Ha, Hstop. reflexivity. }
  exists n, w''. split; [exact Hrun|]. split; [rewrite Hq', Hq; lia|].
  split; [rewrite Hs'; exact Hs|]. split; [|split; assumption].
  rewrite Hrc'. exact Hrc.
Qed.

Lemma iter_Reset_S k (b : B) : Nat.iter k Reset (Reset b) = Nat.iter (S k) Reset b.
Proof. induction k as [|k IH]; simpl; [reflexivity|]. rewrite IH. reflexivity. Qed.

(** X3: Connection after connection: every 200 has its body read to the
    end, and what the consumer receives is the messages of the bodies in
    the order of the connections.  Between two connections [retry]
    sleeps the wait it had before, which a 200 does not change, and both
    policies are reset each time. *)
Theorem reconnections_deliver_the_bodies_in_order bodies : forall (l : Locals B) w,
  at_loop_head l w ->
  done_closed (stream w) = false ->
  receiving w = true ->
  answers_bodies bodies w ->
  exists l' w',
    still_looping json_Unmarshal req l w l' w'
    /\ received (Messages (stream w'))
       = received (Messages (stream w))
         ++ flat_map (flat_map (emit json_Unmarshal)) bodies
    /\ slept w' = slept w ++ repeat (wait l) (length bodies)
    /\ requests w' = (requests w + length bodies)%nat
    /\ wait l' = wait l
    /\ expBackOff l' = Nat.iter (length bodies) Reset (expBackOff l)
    /\ aggExpBackOff l' = Nat.iter (length bodies) Reset (aggExpBackOff l).
Proof.
  induction bodies as [|lines rest IH]; intros l w Hinv Hd Hr Hans.
  - exists l, w. split; [apply still_looping_refl; assumption|].
    simpl. rewrite !app_nil_r, Nat.add_0_r. repeat split.
  - pose proof (Hans 0%nat lines eq_refl) as Hcl. rewrite Nat.add_0_r in Hcl.
    pose proof Hinv as (_ & Hw & _ & Hc & _).
    pose proof Hw as Hw'. apply Z.eqb_neq in Hw'.
    set (l1 := {| wait := wait l;
                  expBackOff := Reset (expBackOff l);
                  aggExpBackOff := Reset (aggExpBackOff l);
                  deferred := DeferBodyClose (length (net w)) :: deferred l |}).
    assert (Ht : transition l (length (net w)) (client (stream w) (requests w)) = inl l1).
    { rewrite Hcl. unfold transition, stop_or_continue. simpl. rewrite Hw'. reflexivity. }
    assert (Htw : turn_world json_Unmarshal l w
                  = after_switch_world (length (net w)) (wait l)
                      (drained json_Unmarshal (length (net w)) lines (responded lines w))).
    { unfold turn_world. rewrite Hcl. reflexivity. }
    destruct (turn_world_stream json_Unmarshal l w Hc) as (Hd1 & _ & Hcl1 & _).
    destruct (IH l1 (turn_world json_Unmarshal l w))
      as (l' & w' & Hloop & Hrc & Hs & Hq & Hwt & He & Ha).
    + apply at_loop_head_next; assumption.
    + rewrite Hd1. exact Hd.
    + rewrite turn_world_receiving. exact Hr.
    + intros i ls Hi. rewrite Hcl1, turn_world_requests.
      rewrite <- (Hans (S i) ls Hi). f_equal. lia.
    + exists l', w'. split.
      * apply (still_looping_step l l1 l' w w' Hinv Hd Hr Ht). intros _ _ _. exact Hloop.
      * split; [|split; [|split; [|split; [|split]]]].
        -- rewrite Hrc, Htw, after_switch_world_stream. simpl.
           rewrite <- app_assoc. reflexivity.
        -- rewrite Hs, Htw, after_switch_world_slept, Hw'. simpl.
           rewrite <- app_assoc. reflexivity.
        -- rewrite Hq, turn_world_requests. simpl. lia.
        -- exact Hwt.
        -- rewrite He. apply iter_Reset_S.
        -- rewrite Ha. apply iter_Reset_S.
Qed.

End RoundsFacts.

(** ** The consumer *)

Lemma HandleChan_app good : forall rest,
  Forall carries_tweet good ->
  HandleChan (good ++ rest)
  = (map printed_id good ++ fst (HandleChan rest), snd (HandleChan rest)).
Proof.
  induction good as [|m good IH]; intros rest Hg; simpl.
  - destruct (HandleChan rest). reflexivity.
  - apply Forall_cons in Hg as [(d & t & -> & Ht) Hg]. rewrite Ht.
    rewrite (IH rest Hg). destruct d as [tw rules]. simpl in Ht. subst tw. reflexivity.
Qed.

(** X4: As long as every message carries a tweet, [HandleChan] prints the
    ids in the order of the messages and ends when the channel is
    closed. *)
Theorem HandleChan_prints_the_ids_in_order messages :
  Forall carries_tweet messages ->
  HandleChan messages = (map printed_id messages, None).
Proof.
  intros Hg. rewrite <- (app_nil_r messages) at 1. rewrite (HandleChan_app messages [] Hg).
  simpl. rewrite app_nil_r. reflexivity.
Qed.

(** X5: [HandleChan] panics at the first message that is nil or has no
    tweet, having printed the ids before it; what comes after is not
    looked at. *)
Theorem HandleChan_panics_at_the_first_message_without_tweet good message rest :
  Forall carries_tweet good ->
  ~ carries_tweet message ->
  HandleChan (good ++ message :: rest) = (map printed_id good, Some nil_dereference).
Proof.
  intros Hg Hbad. rewrite (HandleChan_app good (message :: rest) Hg).
  assert (Hm : HandleChan (message :: rest) = ([], Some nil_dereference)).
  { simpl. destruct message as [d|]; [|reflexivity].
    destruct (data_Tweet d) as [t|] eqn:Ht; [|reflexivity].
    exfalso. apply Hbad. exists d, t. split; [reflexivity|exact Ht]. }
  rewrite Hm. simpl. rewrite app_nil_r. reflexivity.
Qed.

Lemma HandleChan_panics messages :
  Exists (fun m => ~ carries_tweet m) messages ->
  snd (HandleChan messages) = Some nil_dereference.
Proof.
  induction messages as [|m rest IH]; intros Hex; [inversion Hex|]. simpl.
  destruct m as [d|]; [|reflexivity].
  destruct (data_Tweet d) as [t|] eqn:Ht; [|reflexivity].
  destruct (HandleChan rest) as [printed e] eqn:Hrest. simpl. simpl in IH. apply IH.
  apply Exists_cons in Hex as [Hbad|Hex]; [|exact Hex].
  exfalso. apply Hbad. exists d, t. split; [reflexivity|exact Ht].
Qed.

Section ConsumerFacts.

Variable json_Unmarshal : list byte -> StreamData -> StreamData * option error.

(** X6: One malformed line in a body is enough to end the consumer of
    [main.go]: [receive] sends a nil message for it, and [HandleChan]
    panics on what it receives. *)
Theorem a_malformed_line_ends_the_consumer w b lines line e :
  done_closed (stream w) = false ->
  receiving w = true ->
  ch_closed (Messages (stream w)) = false ->
  net w !! b = Some {| pending := lines; closed := false |} ->
  line ∈ lines ->
  length line <> 0%nat ->
  snd (getMessage json_Unmarshal line) = Some e ->
  exists n w',
    run n (receive json_Unmarshal b) w = Finished tt w'
    /\ snd (HandleChan (received (Messages (stream w')))) = Some nil_dereference.
Proof.
  intros Hd Hr Hc Hb Hin Hlen Herr.
  destruct (receive_loop json_Unmarshal lines w b Hd Hr Hc Hb) as [n Hn].
  exists n, (drained json_Unmarshal b lines w). split; [apply run_finished; apply Hn|].
  apply HandleChan_panics. simpl. apply Exists_app. right.
  apply Exists_exists. exists None. split.
  - apply list_elem_of_In. apply in_flat_map. exists line. split.
    + apply list_elem_of_In. exact Hin.
    + unfold emit. apply Nat.eqb_neq in Hlen. rewrite Hlen.
      rewrite (getMessage_error json_Unmarshal line e Herr). left. reflexivity.
  - intros (d & t & Hd' & _). discriminate.
Qed.

(** X7: [receive] returns at once, reading no line and sending nothing, when
    [done] is already closed or when the body has been closed, as [Stop]
    does, whatever lines the body still had to deliver. *)
Theorem receive_returns_at_once_when_stopped w b :
  done_closed (stream w) = true
  \/ (exists c, net w !! b = Some c /\ closed c = true) ->
  exists n, run n (receive json_Unmarshal b) w = Finished tt w.
Proof.
  intros Hstop. destruct (done_closed (stream w)) eqn:Hd.
  - exists 2%nat. apply run_finished. apply receive_cancelled. exact Hd.
  - destruct Hstop as [Hf|(c & Hb & Hcl)]; [discriminate|].
    exists 3%nat. apply run_finished. unfold receive, newStreamResponseBodyReader.
    eapply step_l; [reflexivity|].
    eapply step_l; [simpl; rewrite Hd; reflexivity|].
    eapply step_l; [simpl; rewrite Hb, Hcl; reflexivity|].
    constructor.
Qed.

End ConsumerFacts.

(** ** The loop of [retry] against the status table *)

Section CyclesFacts.

Variable json_Unmarshal : list byte -> StreamData -> StreamData * option error.
Context {B : Type} `{BackOff B}.
Variable req : option Request.

(** X8: [k] request cycles of [retry] do what [k] applications of the status
    table say.  While the loop goes on, each cycle issues one request
    and stacks one more deferred close of a body on those already
    there, none of which has run; and when the table ends the loop,
    [retry] ends, by return or by panic as the table says, with
    everything deferred run. *)
Theorem retry_follows_the_table k : forall (l : Locals B) w,
  at_loop_head l w ->
  done_closed (stream w) = false ->
  receiving w = true ->
  match cycles json_Unmarshal k l w with
  | (inl l', w') =>
      still_looping json_Unmarshal req l w l' w'
      /\ requests w' = (requests w + k)%nat
      /\ exists bs, length bs = k /\ deferred l' = map DeferBodyClose bs ++ deferred l
  | (inr (l', ex), w') =>
      exists n bs,
        run n (retry_from json_Unmarshal req l) w
        = match ex with
          | Return => Finished tt (wound_up bs w')
          | Panic e => Panicked e (wound_up bs w')
          end
  end.
Proof.
  induction k as [|k IH]; intros l w Hinv Hd Hr; simpl.
  - split; [apply still_looping_refl; assumption|]. split; [lia|].
    exists []. split; reflexivity.
  - pose proof Hinv as (_ & _ & _ & Hc & _).
    destruct (transition l (length (net w)) (client (stream w) (requests w)))
      as [l1|[l1 ex]] eqn:Ht.
    + destruct (turn_world_stream json_Unmarshal l w Hc) as (Hd1 & _).
      assert (Hinv1 : at_loop_head l1 (turn_world json_Unmarshal l w))
        by (apply at_loop_head_next; assumption).
      assert (Hd1' : done_closed (stream (turn_world json_Unmarshal l w)) = false)
        by (rewrite Hd1; exact Hd).
      assert (Hr1 : receiving (turn_world json_Unmarshal l w) = true)
        by (rewrite turn_world_receiving; exact Hr).
      specialize (IH l1 (turn_world json_Unmarshal l w) Hinv1 Hd1' Hr1).
      pose proof (transition_deferred l (length (net w))
                    (client (stream w) (requests w))) as Hds.
      rewrite Ht in Hds. destruct Hds as [Hds _].
      destruct (cycles json_Unmarshal k l1 (turn_world json_Unmarshal l w))
        as [[l'|[l' ex]] w'].
      * destruct IH as (Hloop & Hq & bs & Hlen & Hbs). split; [|split].
        -- apply (still_looping_step json_Unmarshal req l l1 l' w w' Hinv Hd Hr Ht).
           intros _ _ _. exact Hloop.
        -- rewrite Hq, turn_world_requests. lia.
        -- exists (bs ++ [length (net w)]). split.
           ++ rewrite length_app, Hlen. simpl. lia.
           ++ rewrite Hbs, Hds, map_app, <- app_assoc. reflexivity.
      * destruct IH as (n & bs & Hrun).
        destruct (retry_goes_round json_Unmarshal req l l1 w Hd Hr Hc Ht) as [n1 [_ Hn1]].
        exists (n1 + n)%nat, bs. rewrite Hn1. exact Hrun.
    + destruct (retry_leaves json_Unmarshal req l l1 ex w Hinv Hd Hr Ht)
        as (n & bs & _ & Hn).
      exists n, bs. destruct ex; [apply run_finished|apply run_panicked]; exact Hn.
Qed.

End CyclesFacts.

(** ** A consumer that has gone *)

Lemma caller_op_keeps_channels w {X} (op : Op X) x w' :
  caller_op op = true ->
  perform op w = Returns x w' ->
  receiving w' = receiving w
  /\ group (stream w') = group (stream w)
  /\ Messages (stream w') = Messages (stream w)
  /\ requests w' = requests w.
Proof.
  intros Hop Hp. destruct op; simpl in Hop; try discriminate; simpl in Hp.
  - destruct (done_closed (stream w)); simplify_eq. repeat split.
  - simplify_eq. repeat split.
  - simplify_eq. repeat split.
  - destruct (group (stream w) =? 0); simplify_eq. repeat split.
Qed.

Section StuckFacts.

Variable json_Unmarshal : list byte -> StreamData -> StreamData * option error.
Context {B : Type} `{BackOff B}.
Variable req : option Request.

(** X9: When the goroutine is at the send of line 175 and no consumer is
    receiving, it stays there whatever the caller does, [Stop] included:
    closing [done] and the body does not reach a goroutine blocked in
    the send.  [Messages] is never closed, nothing is delivered, and
    [s.group.Wait()] blocks, so a call of [Stop] does not return. *)
Theorem a_send_without_consumer_blocks_Stop m m' resp (l : Locals B) msg :
  sound json_Unmarshal req m (AtSend resp l msg) ->
  receiving (world m) = false ->
  rtc mstep m m' ->
  task m' = task m
  /\ Messages (stream (world m')) = Messages (stream (world m))
  /\ ch_closed (Messages (stream (world m'))) = false
  /\ perform GroupWait (world m') = Blocks.
Proof.
  intros Hs Hrcv Hr.
  assert (Hinv : sound json_Unmarshal req m' (AtSend resp l msg)
                 /\ receiving (world m') = false
                 /\ task m' = task m
                 /\ Messages (stream (world m')) = Messages (stream (world m))).
  { induction Hr as [m|m m1 m' [who Hm] _ IH].
    - repeat split; try assumption; apply Hs.
    - destruct Hs as (Ht & Hh & Hp). unfold machine_step in Hm.
      destruct (crashed (task m) || crashed (caller m)); [discriminate|]. destruct who.
      + (* the goroutine cannot move *)
        rewrite Ht in Hm. simpl in Hm. destruct Hh as ((Hc & _) & _).
        rewrite Hc, Hrcv in Hm. discriminate.
      + destruct (thread_step (caller m) (world m)) as [p w| | |] eqn:Hstep; simplify_eq.
        assert (Hkeep : receiving w = receiving (world m)
                        /\ Messages (stream w) = Messages (stream (world m))).
        { destruct Hp as [r|e|X op k Hop Hk]; simpl in Hstep; try discriminate.
          destruct (perform op (world m)) as [x w1| |e] eqn:Hperf; simplify_eq.
          - destruct (caller_op_keeps_channels _ _ _ _ Hop Hperf) as (Ha & _ & Hb & _).
            split; assumption.
          - split; reflexivity. }
        destruct Hkeep as [Hk1 Hk2].
        destruct (caller_step_sound (B:=B) _ _ _ _ Hp Hstep) as [Hp' Hkeep].
        destruct IH as (Hs' & Hrcv' & Ht' & Hm').
        * split; [exact Ht|]. split; [apply Hkeep; exact Hh|exact Hp'].
        * simpl. rewrite Hk1. exact Hrcv.
        * split; [exact Hs'|]. split; [exact Hrcv'|]. split; [exact Ht'|].
          rewrite Hm'. exact Hk2. }
  destruct Hinv as ((_ & ((Hc & Hg) & _) & _) & _ & Ht & Hmsg).
  split; [exact Ht|]. split; [exact Hmsg|]. split; [exact Hc|].
  simpl. rewrite Hg. reflexivity.
Qed.

End StuckFacts.

(** ** When [Stop] returns *)

Section StopFacts.

Variable json_Unmarshal : list byte -> StreamData -> StreamData * option error.
Context {B : Type} `{BackOff B}.
Variable req : option Request.

(** With the wait group released, all that can be left is the close of
    [Messages]. *)
Lemma group_zero_position (pos : Pos B) w :
  holds pos w ->
  group (stream w) = 0 ->
  exists ex ds, pos = AtExit ds ex /\ (ds = [DeferCloseMessages] \/ ds = []).
Proof.
  intros Hh Hg.
  destruct pos; simpl in Hh;
    try (destruct Hh as ((_ & Hg') & _); rewrite Hg in Hg'; discriminate).
  destruct Hh as (_ & [(_ & _ & Hg')|[(-> & _)|(-> & _)]]).
  - rewrite Hg in Hg'. discriminate.
  - exists ex, [DeferCloseMessages]. split; [reflexivity|left; reflexivity].
  - exists ex, []. split; [reflexivity|right; reflexivity].
Qed.

Lemma task_step_keeps_group_zero (pos : Pos B) w p' w' :
  holds pos w ->
  group (stream w) = 0 ->
  thread_step (code json_Unmarshal req pos) w = Next p' w' ->
  group (stream w') = 0.
Proof.
  intros Hh Hg Hs.
  destruct (group_zero_position pos w Hh Hg) as (ex & ds & -> & [-> | ->]).
  - simpl in Hs. destruct (ch_closed (Messages (stream w))); simplify_eq; exact Hg.
  - simpl in Hs. destruct ex; discriminate.
Qed.

Lemma mstep_Stop_progress m m' (pos : Pos B) :
  sound json_Unmarshal req m pos ->
  Stop_progress m ->
  mstep m m' ->
  Stop_progress m'.
Proof.
  intros (Ht & Hh & _) Hprog [who Hm]. unfold machine_step in Hm.
  destruct (crashed (task m) || crashed (caller m)) eqn:Hcr; [discriminate|].
  apply orb_false_elim in Hcr as [_ Hcr]. destruct who.
  - destruct (thread_step (task m) (world m)) as [p w| | |] eqn:Hs; simplify_eq.
    destruct Hprog as [Hin|[Hc|[Hret Hg]]].
    + left. exact Hin.
    + right. left. exact Hc.
    + right. right. split; [exact Hret|]. simpl. rewrite Ht in Hs.
      exact (task_step_keeps_group_zero pos _ _ _ Hh Hg Hs).
  - destruct (thread_step (caller m) (world m)) as [p w| | |] eqn:Hs; simplify_eq.
    destruct Hprog as [[Hin|[Hin|[b Hin]]]|[Hc|[Hret Hg]]].
    + rewrite Hin in Hs. simpl in Hs.
      destruct (done_closed (stream (world m))); simplify_eq.
      * right. left. reflexivity.
      * left. right. left. reflexivity.
    + rewrite Hin in Hs. simpl in Hs. simplify_eq.
      left. right. right. eexists. reflexivity.
    + rewrite Hin in Hs. destruct b as [c|]; simpl in Hs.
      * simplify_eq. left. right. right. exists None. reflexivity.
      * destruct (group (stream (world m)) =? 0) eqn:Hg; simplify_eq.
        right. right. split; [reflexivity|]. apply Z.eqb_eq. exact Hg.
    + rewrite Hc in Hcr. discriminate.
    + rewrite Hret in Hs. discriminate.
Qed.

Lemma rtc_Stop_progress m m' :
  rtc mstep m m' ->
  forall pos : Pos B,
    sound json_Unmarshal req m pos ->
    Stop_progress m ->
    (exists pos', sound json_Unmarshal req m' pos') /\ Stop_progress m'.
Proof.
  induction 1 as [m|m m1 m' Hm _ IH]; intros pos Hs Hprog.
  - split; [exists pos; exact Hs|exact Hprog].
  - destruct (mstep_sound json_Unmarshal req m m1 pos Hs Hm) as [pos1 Hs1].
    apply (IH pos1 Hs1). exact (mstep_Stop_progress m m1 pos Hs Hprog Hm).
Qed.

Variable newExponentialBackOff : B.
Variable newAggressiveExponentialBackOff : B.

(** X10: When a call of [Stop] on a session has returned, the goroutine has
    released the wait group, so it is past its loop and past every
    deferred call but the last: [done] is closed, every body is closed,
    and all that can be left for it to do is the close of [Messages].
    It issues no request and sends no message any more. *)
Theorem when_Stop_returns_only_the_close_of_Messages_is_left client m :
  rtc mstep
    (start (newStream json_Unmarshal newExponentialBackOff newAggressiveExponentialBackOff
              client req) Stop) m ->
  caller m = Ret tt ->
  exists ex ds,
    task m = code json_Unmarshal req (@AtExit B ds ex)
    /\ (ds = [DeferCloseMessages] \/ ds = [])
    /\ group (stream (world m)) = 0
    /\ done_closed (stream (world m)) = true
    /\ all_closed (world m).
Proof.
  intros Hr Hret.
  destruct (rtc_Stop_progress _ _ Hr _
              (newStream_sound json_Unmarshal req _ _ client Stop Stop_polite))
    as [(pos & Ht & Hh & _) Hprog].
  { left. left. reflexivity. }
  destruct Hprog as [[Hin|[Hin|[b Hin]]]|[Hc|[_ Hg]]].
  - rewrite Hret in Hin. discriminate.
  - rewrite Hret in Hin. discriminate.
  - rewrite Hret in Hin. destruct b; discriminate.
  - rewrite Hret in Hc. discriminate.
  - destruct (group_zero_position pos _ Hh Hg) as (ex & ds & -> & Hds).
    exists ex, ds. split; [exact Ht|]. split; [exact Hds|]. split; [exact Hg|].
    split; [|destruct Hh as (Hall & _); exact Hall].
    apply (Stop_returned_done_closed _ m Hr); [reflexivity|exact Hret].
Qed.

End StopFacts.

(** ** After the cancellation *)

Section ShutdownFacts.

Variable json_Unmarshal : list byte -> StreamData -> StreamData * option error.
Context {B : Type} `{BackOff B}.
Variable req : option Request.




Variable newExponentialBackOff : B.
Variable newAggressiveExponentialBackOff : B.


End ShutdownFacts.

(** ** Further examples *)

Lemma retry_gives_up_with_the_standard_policy_witness :
  exists n w',
    run n (retry_from example_Unmarshal example_request first_locals)
        (shared (example_session [Reply 503 []; Reply 503 []])) = Finished tt w'
    /\ requests w' = (0 + 2)%nat
    /\ slept w' = [] ++ [second / 2]
    /\ received (Messages (stream w')) = []
    /\ ch_closed (Messages (stream w')) = true
    /\ all_closed w'.
Proof.
  refine (retry_gives_up_with_the_standard_policy example_Unmarshal example_request 1
           first_locals (shared (example_session [Reply 503 []; Reply 503 []])) _ _ _ _ _ _).
  - repeat split; [exists []; reflexivity | discriminate | simpl; lia | constructor].
  - reflexivity.
  - reflexivity.
  - intros [|[|i]] Hi; [exists []; reflexivity | exists []; reflexivity | lia].
  - repeat constructor. discriminate.
  - reflexivity.
Defined.

Lemma retry_gives_up_with_the_aggressive_policy_witness :
  exists n w',
    run n (retry_from example_Unmarshal example_request first_locals)
        (shared (example_session [Reply 429 []; Reply 420 []; Reply 429 []]))
    = Finished tt w'
    /\ requests w' = (0 + 3)%nat
    /\ slept w' = [] ++ [2 * second; 4 * second]
    /\ received (Messages (stream w')) = []
    /\ ch_closed (Messages (stream w')) = true
    /\ all_closed w'.
Proof.
  refine (retry_gives_up_with_the_aggressive_policy example_Unmarshal example_request 2
           first_locals
           (shared (example_session [Reply 429 []; Reply 420 []; Reply 429 []])) _ _ _ _ _ _).
  - repeat split; [exists []; reflexivity | discriminate | simpl; lia | constructor].
  - reflexivity.
  - reflexivity.
  - intros [|[|[|i]]] Hi;
      [exists 429, []; split; [reflexivity|right; reflexivity]
      |exists 420, []; split; [reflexivity|left; reflexivity]
      |exists 429, []; split; [reflexivity|right; reflexivity]
      |lia].
  - repeat constructor; discriminate.
  - reflexivity.
Defined.

Lemma reconnections_deliver_the_bodies_in_order_witness :
  exists l' w',
    still_looping example_Unmarshal example_request first_locals
      (shared (example_session
                 [Reply 200 [tweet_line "1"]; Reply 200 [[]; tweet_line "2"]])) l' w'
    /\ received (Messages (stream w')) = [] ++ [tweet "1"; tweet "2"]
    /\ slept w' = [] ++ [0; 0]
    /\ requests w' = (0 + 2)%nat
    /\ wait l' = 0
    /\ expBackOff l' = scripted [second / 2]
    /\ aggExpBackOff l' = scripted [2 * second; 4 * second].
Proof.
  refine (reconnections_deliver_the_bodies_in_order example_Unmarshal example_request
           [[tweet_line "1"]; [[]; tweet_line "2"]] first_locals
           (shared (example_session
                      [Reply 200 [tweet_line "1"]; Reply 200 [[]; tweet_line "2"]])) _ _ _ _).
  - repeat split; [exists []; reflexivity | discriminate | simpl; lia | constructor].
  - reflexivity.
  - reflexivity.
  - intros [|[|i]] lines Hi; simpl in Hi; simplify_eq; reflexivity.
Defined.

Lemma HandleChan_prints_the_ids_in_order_witness :
  HandleChan [tweet "1"; tweet "2"] = (["1"; "2"], None).
Proof.
  refine (HandleChan_prints_the_ids_in_order [tweet "1"; tweet "2"] _).
  repeat constructor; eexists _, _; split; reflexivity.
Defined.

Lemma HandleChan_panics_at_the_first_message_without_tweet_witness :
  HandleChan ([tweet "1"] ++ None :: [tweet "2"]) = (["1"], Some nil_dereference).
Proof.
  refine (HandleChan_panics_at_the_first_message_without_tweet [tweet "1"] None [tweet "2"] _ _).
  - repeat constructor; eexists _, _; split; reflexivity.
  - intros (d & t & Hd & _). discriminate.
Defined.

Lemma a_malformed_line_ends_the_consumer_witness :
  exists n w',
    run n (receive example_Unmarshal 0%nat) (streaming [tweet_line "1"; bad_line])
    = Finished tt w'
    /\ snd (HandleChan (received (Messages (stream w')))) = Some nil_dereference.
Proof.
  refine (a_malformed_line_ends_the_consumer example_Unmarshal
           (streaming [tweet_line "1"; bad_line]) 0%nat [tweet_line "1"; bad_line]
           bad_line "invalid character" _ _ _ _ _ _ _).
  - reflexivity.
  - reflexivity.
  - reflexivity.
  - reflexivity.
  - apply list_elem_of_In. right. left. reflexivity.
  - simpl. lia.
  - reflexivity.
Defined.

Lemma receive_returns_at_once_when_stopped_witness :
  exists n,
    run n (receive example_Unmarshal 0%nat) (cancelled [tweet_line "1"])
    = Finished tt (cancelled [tweet_line "1"]).
Proof.
  refine (receive_returns_at_once_when_stopped example_Unmarshal
           (cancelled [tweet_line "1"]) 0%nat _).
  left. reflexivity.
Defined.

Lemma retry_follows_the_table_witness :
  match cycles example_Unmarshal 2 first_locals
          (shared (example_session [Reply 503 []; Reply 404 []])) with
  | (inl l', w') =>
      still_looping example_Unmarshal example_request first_locals
        (shared (example_session [Reply 503 []; Reply 404 []])) l' w'
      /\ requests w'
         = (requests (shared (example_session [Reply 503 []; Reply 404 []])) + 2)%nat
      /\ exists bs, length bs = 2%nat
                    /\ deferred l' = map DeferBodyClose bs ++ deferred first_locals
  | (inr (l', ex), w') =>
      exists n bs,
        run n (retry_from example_Unmarshal example_request first_locals)
            (shared (example_session [Reply 503 []; Reply 404 []]))
        = match ex with
          | Return => Finished tt (wound_up bs w')
          | Panic e => Panicked e (wound_up bs w')
          end
  end.
Proof.
  refine (retry_follows_the_table example_Unmarshal example_request 2 first_locals
           (shared (example_session [Reply 503 []; Reply 404 []])) _ _ _).
  - repeat split; [exists []; reflexivity | discriminate | simpl; lia | constructor].
  - reflexivity.
  - reflexivity.
Defined.

Lemma a_send_without_consumer_blocks_Stop_witness :
  let m := consumer_gone
             (after [Task; Task; Task; Task; Task; Task; Task; Task]
                (start (example_session [Reply 200 [tweet_line "1"]]) Stop)) in
  let m' := after [Caller; Caller; Caller; Caller; Task; Caller] m in
  task m' = task m
  /\ Messages (stream (world m')) = Messages (stream (world m))
  /\ ch_closed (Messages (stream (world m'))) = false
  /\ perform GroupWait (world m') = Blocks.
Proof.
  intros m m'.
  refine (a_send_without_consumer_blocks_Stop example_Unmarshal example_request m m'
           {| StatusCode := 200; Body := 0%nat |}
           {| wait := 0;
              expBackOff := scripted [second / 2];
              aggExpBackOff := scripted [2 * second; 4 * second];
              deferred := [DeferBodyClose 0%nat; DeferGroupDone; DeferCloseMessages] |}
           (tweet "1") _ _ _).
  - split; [vm_compute; reflexivity|]. split; [|apply Stop_polite].
    split; [split; reflexivity|]. split; [exists [0%nat]; reflexivity|].
    split; [reflexivity|]. intros i c Hi. simpl in Hi. lia.
  - reflexivity.
  - apply after_rtc.
Defined.

Lemma when_Stop_returns_only_the_close_of_Messages_is_left_witness :
  let m := after [Caller; Task; Task; Task; Caller; Caller]
             (start (example_session []) Stop) in
  exists ex ds,
    task m = code example_Unmarshal example_request (@AtExit Scripted ds ex)
    /\ (ds = [DeferCloseMessages] \/ ds = [])
    /\ group (stream (world m)) = 0
    /\ done_closed (stream (world m)) = true
    /\ all_closed (world m).
Proof.
  intros m.
  refine (when_Stop_returns_only_the_close_of_Messages_is_left example_Unmarshal
           example_request (scripted [second / 2]) (scripted [2 * second; 4 * second])
           (answering []) m _ _).
  - apply after_rtc.
  - vm_compute. reflexivity.
Defined.


Lemma Connect_never_returns_an_error_witness :
  let r := (Some (newStream example_Unmarshal
                    (scripted [second / 2]) (scripted [2 * second; 4 * second])
                    (answering []) example_request),
            @None error) in
  snd r = None /\ fst r <> None.
Proof.
  intros r.
  refine (Connect_never_returns_an_error example_Unmarshal example_NewRequest
            refusing_Values example_Encode
            (scripted [second / 2]) (scripted [2 * second; 4 * second])
            (NewStreamService (answering []) "t") None r _).
  vm_compute. reflexivity.
Defined.
